(** * RoleRadar: a shallow embedding of the storage layer, the Netflix and
    COMSOL connectors, the profile loader and the dashboard's pagination,
    with the properties the specification states about them.

    Conventions of the embedding.
    - A Python [str], like an SQLite TEXT value, is the [string] of its
      UTF-8 bytes; ordering of TEXT values is SQLite's BINARY collation,
      i.e. byte-wise lexicographic order ([String.le]), which is also the
      order of code points.
    - White space is Unicode's, as [str.strip] and [\s] have it. The
      letter-case and digit methods of [str] follow the character tables
      of the interpreter: they are parameters, and what is assumed of them
      is their action on ASCII text.
    - A SQLite table with a primary key is a [gmap] from the key to the
      remaining columns; [None] in an [option] column is SQL NULL.
    - The calendar day ([date.today().isoformat()]) and the clock are read
      once per call; they are explicit arguments here. *)

From Stdlib Require Import ZArith QArith Ascii.
From stdpp Require Import gmap strings list sorting pretty.

Set Warnings "-register-all".

(** * Python text and values *)
Module Py.

(** ** Text *)

(** White space is what [str.isspace] holds of a character, which is also
    the class [\s] of [re] on [str] patterns: U+0009 to U+000D, U+001C to
    U+0020, U+0085, U+00A0, U+1680, U+2000 to U+200A, U+2028, U+2029,
    U+202F, U+205F and U+3000. In UTF-8 these take one, two or three
    bytes. *)
Definition is_space (a : ascii) : bool :=
  let n := N_of_ascii a in
  ((9 <=? n) && (n <=? 13) || (28 <=? n) && (n <=? 32))%N.

Definition is_space2 (a b : ascii) : bool :=
  let x := N_of_ascii a in
  let y := N_of_ascii b in
  ((x =? 194) && ((y =? 133) || (y =? 160)))%N.

Definition is_space3 (a b c : ascii) : bool :=
  let x := N_of_ascii a in
  let y := N_of_ascii b in
  let z := N_of_ascii c in
  ((x =? 225) && (y =? 154) && (z =? 128)
   || (x =? 226) && (y =? 128)
      && ((128 <=? z) && (z <=? 138) || (z =? 168) || (z =? 169)
          || (z =? 175))
   || (x =? 226) && (y =? 129) && (z =? 159)
   || (x =? 227) && (y =? 128) && (z =? 128))%N.

(** The text after the white-space character that [s] starts with. *)
Definition after_space (s : string) : option string :=
  match s with
  | String a s1 =>
      if is_space a then Some s1
      else
        match s1 with
        | String b s2 =>
            if is_space2 a b then Some s2
            else
              match s2 with
              | String c s3 => if is_space3 a b c then Some s3 else None
              | EmptyString => None
              end
        | EmptyString => None
        end
  | EmptyString => None
  end.

(** [s.lstrip()] *)
Fixpoint lstrip (s : string) : string :=
  match s with
  | String a s1 =>
      if is_space a then lstrip s1
      else
        match s1 with
        | String b s2 =>
            if is_space2 a b then lstrip s2
            else
              match s2 with
              | String c s3 => if is_space3 a b c then lstrip s3 else s
              | EmptyString => s
              end
        | EmptyString => s
        end
  | EmptyString => EmptyString
  end.

(** [s.rstrip()]: the text is cut where only white space follows. *)
Fixpoint rstrip (s : string) : string :=
  match s with
  | String a s' =>
      if bool_decide (lstrip s = EmptyString) then EmptyString
      else String a (rstrip s')
  | EmptyString => EmptyString
  end.

(** [s.strip()] *)
Definition strip (s : string) : string := rstrip (lstrip s).

(** A text of ASCII characters. *)
Definition ascii_text (s : string) : Prop :=
  Forall (λ a, (N_of_ascii a < 128)%N) (String.list_ascii_of_string s).

(** A text of ASCII characters none of which is white space. *)
Definition spaceless (s : string) : Prop :=
  Forall (λ a, (N_of_ascii a < 128)%N ∧ is_space a = false)
         (String.list_ascii_of_string s).

(** The no-break space, U+00A0. *)
Definition nbsp : string :=
  String (ascii_of_N 194) (String (ascii_of_N 160) "").

Definition upper_char (a : ascii) : ascii :=
  let n := N_of_ascii a in
  if ((97 <=? n) && (n <=? 122))%N then ascii_of_N (n - 32) else a.

Definition lower_char (a : ascii) : ascii :=
  let n := N_of_ascii a in
  if ((65 <=? n) && (n <=? 90))%N then ascii_of_N (n + 32) else a.

Fixpoint map_chars (f : ascii → ascii) (s : string) : string :=
  match s with
  | String a s' => String (f a) (map_chars f s')
  | EmptyString => EmptyString
  end.

(** The letters [a] to [z] in upper case, the letters [A] to [Z] in lower
    case, every other byte as it is. This is what [s.upper()], and what
    [s.lower()] and [s.casefold()], make of a text of ASCII characters;
    [lower] is also the case folding of SQLite's [LIKE]. On other text
    the methods of [str] follow the Unicode tables: where the program
    calls them, they are parameters. *)
Definition upper : string → string := map_chars upper_char.
Definition lower : string → string := map_chars lower_char.

(** A map of bytes that moves nothing but the ASCII letters and the
    characters around them, among themselves. *)
Definition letter_map (f : ascii → ascii) : Prop :=
  ∀ a, ((N_of_ascii a ≤ 64 ∨ 128 ≤ N_of_ascii a)%N → f a = a)
       ∧ ((64 < N_of_ascii a < 128)%N → (64 < N_of_ascii (f a) < 128)%N).

(** [s.split(sep)] for a separator of one byte, which is never part of a
    longer character: never an empty list. *)
Fixpoint split (sep : ascii) (s : string) : list string :=
  match s with
  | EmptyString => [EmptyString]
  | String a s' =>
      if decide (a = sep) then EmptyString :: split sep s'
      else match split sep s' with
           | h :: t => String a h :: t
           | [] => [String a EmptyString]
           end
  end.

(** [re.sub(r"\s+", " ", s)]; [in_ws] tells that the previous character
    belonged to the run being replaced. *)
Definition emit_space (in_ws : bool) (rest : string) : string :=
  if in_ws then rest else String " " rest.

Fixpoint collapse_ws_go (in_ws : bool) (s : string) : string :=
  match s with
  | EmptyString => EmptyString
  | String a s1 =>
      if is_space a then emit_space in_ws (collapse_ws_go true s1)
      else
        match s1 with
        | String b s2 =>
            if is_space2 a b then emit_space in_ws (collapse_ws_go true s2)
            else
              match s2 with
              | String c s3 =>
                  if is_space3 a b c
                  then emit_space in_ws (collapse_ws_go true s3)
                  else String a (collapse_ws_go false s1)
              | EmptyString => String a (collapse_ws_go false s1)
              end
        | EmptyString => String a (collapse_ws_go false s1)
        end
  end.

Definition collapse_ws : string → string := collapse_ws_go false.

(** [s.replace(c, "")] for a [c] of one byte. *)
Fixpoint remove_char (c : ascii) (s : string) : string :=
  match s with
  | EmptyString => EmptyString
  | String a s' =>
      if decide (a = c) then remove_char c s' else String a (remove_char c s')
  end.

(** [needle in hay]: in UTF-8 a text occurs in another as a run of
    characters exactly when it occurs as a run of bytes. *)
Fixpoint contains (needle hay : string) : bool :=
  String.prefix needle hay ||
  match hay with
  | EmptyString => false
  | String _ hay' => contains needle hay'
  end.

(** [sep.join(parts)] *)
Definition join (sep : string) (parts : list string) : string :=
  String.concat sep parts.

(** [list(dict.fromkeys(parts))]: first occurrences, in order. *)
Fixpoint fromkeys_go (seen parts : list string) : list string :=
  match parts with
  | [] => []
  | p :: rest =>
      if decide (p ∈ seen) then fromkeys_go seen rest
      else p :: fromkeys_go (p :: seen) rest
  end.

Definition fromkeys : list string → list string := fromkeys_go [].

(** What [s.isdigit()] and [int(s)] are on a text of ASCII characters, not
    over-long for [int]: all characters are digits, and the number they
    write. On other text the two follow the tables and the limits of the
    interpreter: where the program calls them, they are parameters. *)
Definition isdigit (s : string) : bool :=
  match s with
  | EmptyString => false
  | _ => forallb (λ a, bool_decide (is_Some (Ascii.is_nat a)))
                 (String.list_ascii_of_string s)
  end.

Definition int_of_digits (s : string) : Z :=
  foldl (λ acc a, (10 * acc + Z.of_nat (default 0%nat (Ascii.is_nat a)))%Z)
        0%Z (String.list_ascii_of_string s).

(** ** Values: what [json] and [yaml] loaders hand over *)

(** [None], [bool], [int], a finite [float] (as a rational), [str], [list]
    and [dict]. A [dict] is given by its entries under [str] keys, in
    insertion order: the keys of a JSON object are all [str], and the
    program looks up [str] keys only. [POther] is any other object a loader
    returns (a [float] that is not finite; from YAML a date, a timestamp,
    [bytes], a [set], and a mapping with keys that are not text where it
    is a value to be listed), given by what the program can observe of
    it: its truth value, what [list(...)] makes of it ([None]: it is not
    iterable) and its [str(...)]. *)

Inductive pyval :=
| PNone
| PBool (b : bool)
| PInt (z : Z)
| PFloat (q : Q)
| PStr (s : string)
| PList (l : list pyval)
| PDict (d : list (string * pyval))
| POther (truth : bool) (items : option (list pyval)) (text : string).

(** A [dict] with [str] keys, in insertion order. *)
Abbreviation pydict := (list (string * pyval)).

(** Truth value of an object, as [or], [if] and [not] test it. *)
Definition truthy (v : pyval) : bool :=
  match v with
  | PNone => false
  | PBool b => b
  | PInt z => negb (z =? 0)%Z
  | PFloat q => negb (Qnum q =? 0)%Z
  | PStr s => negb (bool_decide (s = EmptyString))
  | PList l => negb (bool_decide (l = []))
  | PDict d => negb (bool_decide (d = []))
  | POther truth _ _ => truth
  end.

(** [a or b] *)
Definition py_or (a b : pyval) : pyval := if truthy a then a else b.

(** [d[k]] when the key is there. *)
Fixpoint dict_lookup (d : pydict) (k : string) : option pyval :=
  match d with
  | [] => None
  | (k', v) :: d' => if decide (k' = k) then Some v else dict_lookup d' k
  end.

(** [d.get(k)] and [d.get(k, dflt)] *)
Definition dict_get (d : pydict) (k : string) : pyval :=
  default PNone (dict_lookup d k).

Definition dict_get_or (d : pydict) (k : string) (dflt : pyval) : pyval :=
  default dflt (dict_lookup d k).

(** [str(v)]. For floats, lists and dicts [str] is [repr], whose text the
    program never inspects: it is the parameter [repr_other]. *)
Definition py_str (repr_other : pyval → string) (v : pyval) : string :=
  match v with
  | PNone => "None"
  | PBool true => "True"
  | PBool false => "False"
  | PInt z => pretty z
  | PStr s => s
  | POther _ _ text => text
  | _ => repr_other v
  end.

(** ** Exceptions *)

(** [Interrupt] is an exception that does not derive from [Exception]:
    [KeyboardInterrupt], [SystemExit], [GeneratorExit]. *)
Inductive exn :=
| AttributeError
| TypeError
| FileNotFoundError
| OtherError (name : string)
| Interrupt (name : string).

(** What [except Exception] catches. *)
Definition is_Exception (e : exn) : bool :=
  match e with
  | Interrupt _ => false
  | _ => true
  end.

Inductive result (A : Type) :=
| Ok (a : A)
| Raise (e : exn).
Arguments Ok {A} a.
Arguments Raise {A} e.

Definition bind {A B} (m : result A) (k : A → result B) : result B :=
  match m with
  | Ok a => k a
  | Raise e => Raise e
  end.

(** [v.get] is there for a [dict] only. *)
Definition as_dict (v : pyval) : result pydict :=
  match v with
  | PDict d => Ok d
  | _ => Raise AttributeError
  end.

(** The characters of a text: a byte of the form [10xxxxxx] continues the
    character before it. *)
Definition is_continuation (a : ascii) : bool :=
  ((128 <=? N_of_ascii a) && (N_of_ascii a <=? 191))%N.

Fixpoint utf8_chars (s : string) : list string :=
  match s with
  | EmptyString => []
  | String a s' =>
      let cs := utf8_chars s' in
      match s' with
      | String b _ =>
          if is_continuation b
          then match cs with
               | c :: cs' => String a c :: cs'
               | [] => [String a EmptyString]
               end
          else String a EmptyString :: cs
      | EmptyString => [String a EmptyString]
      end
  end.

(** [list(v)] *)
Definition py_list (v : pyval) : result (list pyval) :=
  match v with
  | PList l => Ok l
  | PStr s => Ok (PStr <$> utf8_chars s)
  | PDict d => Ok ((λ kv : string * pyval, PStr kv.1) <$> d)
  | POther _ (Some items) _ => Ok items
  | _ => Raise TypeError
  end.

(** [repr] for the examples, none of which needs it. *)
Definition no_repr (_ : pyval) : string := "".

#[global] Instance result_bind : MBind result := λ A B k m, bind m k.
#[global] Instance result_ret : MRet result := λ A a, Ok a.

(** ** The methods of [str] that follow the interpreter's tables *)

(** [s.upper()], [s.lower()], [s.casefold()], [s.isdigit()] and [int(s)],
    which raises [ValueError] on what it cannot read. *)
Record str_methods := mkStr {
  str_upper : string → string;
  str_lower : string → string;
  str_casefold : string → string;
  str_isdigit : string → bool;
  str_int : string → result Z
}.

(** What is assumed of the three letter-case methods: their action on
    ASCII text. *)
Definition ascii_case (str : str_methods) : Prop :=
  ∀ s, ascii_text s →
    str_upper str s = upper s ∧ str_lower str s = lower s
    ∧ str_casefold str s = lower s.

(** The methods cut down to ASCII: the examples apply them to ASCII text
    only. *)
Definition ascii_methods : str_methods :=
  mkStr upper lower lower isdigit (λ s, Ok (int_of_digits s)).

End Py.

(** * Storage layer (src/storage/db.py) *)
Module Storage.

(** [class JobLike(Protocol)] *)
Record JobLike := mkJobLike {
  company : string;
  job_id : string;
  title : string;
  url : string;
  location : option string
}.

(** A row of table [jobs]; the primary key [job_id] is the map key. *)
Record job_row := mkJobRow {
  row_company : string;
  row_title : string;
  row_url : string;
  row_location : option string;
  first_seen : string;
  last_seen : string
}.

(** A row of table [runs]; the primary key is [(run_date, company)]. *)
Record run_row := mkRunRow {
  ran_at : string;
  total_jobs : Z;
  new_jobs : Z
}.

Record conn := mkConn {
  jobs : gmap string job_row;
  runs : gmap (string * string) run_row
}.

(** [init_db] on a fresh file: both tables exist and are empty. *)
Definition empty_db : conn := mkConn ∅ ∅.

(** SQL [COALESCE(a, b)] *)
Definition coalesce (a b : option string) : option string :=
  match a with
  | Some x => Some x
  | None => b
  end.

(** One [INSERT ... ON CONFLICT(job_id) DO UPDATE SET ...] statement. *)
Definition upsert_row (today : string) (tbl : gmap string job_row)
    (j : JobLike) : gmap string job_row :=
  match tbl !! job_id j with
  | None =>
      <[job_id j :=
          mkJobRow (company j) (title j) (url j) (location j) today today]> tbl
  | Some r =>
      <[job_id j :=
          mkJobRow (row_company r) (title j) (url j)
                   (coalesce (location j) (row_location r))
                   (first_seen r) today]> tbl
  end.

Definition upsert_jobs (today : string) (c : conn) (js : list JobLike) : conn :=
  mkConn (foldl (upsert_row today) (jobs c) js) (runs c).

Definition record_run (today now : string) (c : conn) (co : string)
    (total new : Z) : conn :=
  mkConn (jobs c) (<[(today, co) := mkRunRow now total new]> (runs c)).

(** Rows of [runs] for one company, as [(run_date, ran_at, total_jobs,
    new_jobs)] tuples. *)
Definition run_tuples (c : conn) (co : string)
    : list (string * string * Z * Z) :=
  (λ kr : string * string * run_row,
     (kr.1.1, ran_at kr.2, total_jobs kr.2, new_jobs kr.2))
    <$> filter (λ kr : string * string * run_row, kr.1.2 = co)
               (map_to_list (runs c)).

Definition run_date_desc (a b : string * string * Z * Z) : Prop :=
  String.le b.1.1.1 a.1.1.1.

(** [ORDER BY run_date DESC LIMIT 1], then [fetchone()]. *)
Definition get_last_run (c : conn) (co : string)
    : option (string * string * Z * Z) :=
  head (merge_sort run_date_desc (run_tuples c co)).

Definition title_asc (a b : string * string * string * string) : Prop :=
  String.le a.1.1.1 b.1.1.1.

Definition new_today_tuples (today : string) (c : conn) (co : string)
    : list (string * string * string * string) :=
  (λ kr : string * job_row,
     (row_title kr.2, row_url kr.2, first_seen kr.2, last_seen kr.2))
    <$> filter (λ kr : string * job_row,
                  row_company kr.2 = co ∧ first_seen kr.2 = today)
               (map_to_list (jobs c)).

(** [WHERE company = ? AND first_seen = ? ORDER BY title]; rows with equal
    titles come in an order SQLite does not promise, here the one the
    merge sort leaves. *)
Definition get_new_today (today : string) (c : conn) (co : string)
    : list (string * string * string * string) :=
  merge_sort title_asc (new_today_tuples today c co).

(** ** Sample data for the examples *)

Definition day1 : string := "2024-05-01".
Definition day2 : string := "2024-05-02".

Definition sample_job (loc : option string) : JobLike :=
  mkJobLike "COMSOL" "COMSOL:12345" "Applications Engineer"
            "https://www.comsol.com/company/careers/job/12345/" loc.

Definition other_job : JobLike :=
  mkJobLike "COMSOL" "COMSOL:777" "Technical Writer"
            "https://www.comsol.com/company/careers/job/777/"
            (Some "Cambridge, GB").

(** The table after [sample_job] was seen in Burlington on [day1]. *)
Definition sample_db : conn :=
  upsert_jobs day1 empty_db [sample_job (Some "Burlington, MA")].

(** Two runs of the Netflix connector, on [day1] and on [day2]. *)
Definition sample_runs : conn :=
  record_run day2 "2024-05-02T09:00:00"
    (record_run day1 "2024-05-01T09:00:00" empty_db "Netflix" 25 25)
    "Netflix" 27 2.

End Storage.

(** * Netflix connector (src/connectors/netflix.py) *)
Module Netflix.
Import Py.

(** [@dataclass class Job]. [url] and [description] hold whatever value the
    posting carried under those keys. *)
Record Job := mkJob {
  company : string;
  job_id : string;
  title : string;
  location : string;
  url : pyval;
  description : pyval
}.

Definition COMPANY : string := "Netflix".
Definition BASE_URL : string := "https://explore.jobs.netflix.net".

(** Why the [while True] loop was left; each is one of its log lines. *)
Inductive stop_reason :=
| ReachedMaxPages
| EmptyPage
| SignatureRepeated
| ReachedTotal.

(** [raw.get("id") or raw.get("jobId") or raw.get("positionId")] *)
Definition native_id (raw : pydict) : pyval :=
  py_or (dict_get raw "id")
        (py_or (dict_get raw "jobId") (dict_get raw "positionId")).

(** [_extract_raw_jobs] *)
Definition extract_raw_jobs (data : pydict) : list pydict :=
  let raw :=
    py_or (dict_get data "jobs")
      (py_or (dict_get data "positions")
         (py_or (dict_get data "results")
            (py_or (dict_get data "data") (PList [])))) in
  match raw with
  | PList l =>
      omap (λ j, match j with PDict d => Some d | _ => None end) l
  | _ => []
  end.

Section WithRepr.
(** [repr] for [str(...)] of values that are not text, and the methods of
    [str] that follow the interpreter's tables. *)
Context (repr_other : pyval → string).
Context (str : str_methods).

(** [_extract_total]; [bool] is a subclass of [int]. *)
Fixpoint extract_total_keys (data : pydict) (keys : list string)
    : result (option Z) :=
  match keys with
  | [] => Ok None
  | k :: rest =>
      match dict_get data k with
      | PInt z => Ok (Some z)
      | PBool b => Ok (Some (Z.b2z b))
      | PStr s =>
          if str_isdigit str s then z ← str_int str s; Ok (Some z)
          else extract_total_keys data rest
      | _ => extract_total_keys data rest
      end
  end.

Definition extract_total (data : pydict) : result (option Z) :=
  extract_total_keys data ["count"; "total"; "totalCount"; "total_count"].

(** [_page_signature] *)
Definition page_signature (raw_jobs : list pydict) (n : nat) : list string :=
  (λ j, py_str repr_other
          (py_or (dict_get j "id")
             (py_or (dict_get j "jobId")
                (py_or (dict_get j "positionId") (PStr "")))))
    <$> take n raw_jobs.

(** The [s] built for a [dict] item of a location list. *)
Definition location_item_text (item : pydict) : string :=
  strip (py_str repr_other
           (py_or (dict_get item "name")
              (py_or (dict_get item "label")
                 (py_or (dict_get item "location")
                    (py_or (dict_get item "city") (PStr "")))))).

(** The [parts] collected from a location list. *)
Fixpoint location_parts (loc : list pyval) : list string :=
  match loc with
  | [] => []
  | item :: rest =>
      match item with
      | PStr s =>
          let s := strip s in
          if bool_decide (s = "") then location_parts rest
          else s :: location_parts rest
      | PDict d =>
          let s := location_item_text d in
          if bool_decide (s = "") then location_parts rest
          else s :: location_parts rest
      | _ => location_parts rest
      end
  end.

Definition or_unspecified (s : string) : string :=
  if bool_decide (s = "") then "Unspecified" else s.

(** [_extract_location] *)
Definition extract_location (raw : pydict) : string :=
  let loc :=
    py_or (dict_get raw "locations")
      (py_or (dict_get raw "location")
         (py_or (dict_get raw "jobLocation") (dict_get raw "locationName"))) in
  match loc with
  | PStr s => or_unspecified (strip s)
  | PList l =>
      let parts := location_parts l in
      match parts with
      | [] => "Unspecified"
      | _ => join ", " (fromkeys parts)
      end
  | PDict d =>
      or_unspecified
        (strip (py_str repr_other
                  (py_or (dict_get d "name")
                     (py_or (dict_get d "label")
                        (py_or (dict_get d "location") (PStr ""))))))
  | _ => "Unspecified"
  end.

(** [_parse_job]: [Ok None] is the [return None] of a dropped posting,
    [Raise] the [.strip()] of a title that is not a [str]. *)
Definition parse_job (raw : pydict) : result (option Job) :=
  let job_id := native_id raw in
  match job_id with
  | PNone => Ok None
  | _ =>
      let job_id_str := strip (py_str repr_other job_id) in
      match py_or (dict_get raw "title")
                  (py_or (dict_get raw "name") (PStr "")) with
      | PStr t =>
          let title := strip t in
          if bool_decide (title = "") then Ok None
          else
            let location := extract_location raw in
            let url :=
              py_or (dict_get raw "canonicalPositionUrl")
                (py_or (dict_get raw "url")
                   (py_or (dict_get raw "applyUrl")
                      (PStr (BASE_URL +:+ "/jobs/" +:+ job_id_str)))) in
            let description :=
              py_or (dict_get raw "description")
                (py_or (dict_get raw "jobDescription")
                   (dict_get raw "descriptionText")) in
            Ok (Some (mkJob COMPANY (COMPANY +:+ ":" +:+ job_id_str)
                            title location url description))
      | _ => Raise AttributeError
      end
  end.

(** The [for raw in raw_jobs] loop: parse, drop, de-duplicate by [job_id]. *)
Fixpoint parse_page (raw_jobs : list pydict) (seen_ids : gset string)
    (postings : list Job) : result (gset string * list Job) :=
  match raw_jobs with
  | [] => Ok (seen_ids, postings)
  | raw :: rest =>
      match parse_job raw with
      | Raise e => Raise e
      | Ok None => parse_page rest seen_ids postings
      | Ok (Some job) =>
          if decide (job_id job ∈ seen_ids)
          then parse_page rest seen_ids postings
          else parse_page rest ({[job_id job]} ∪ seen_ids) (postings ++ [job])
      end
  end.

(** [_matches_any_keyword]; [" ".join] raises on a description that is
    neither empty nor a [str]. *)
Definition matches_any_keyword (job : Job) (keywords_lc : list string)
    : result bool :=
  match py_or (description job) (PStr "") with
  | PStr d =>
      let hay := str_lower str (join " " [title job; location job; d]) in
      Ok (existsb (λ k, contains k hay) keywords_lc)
  | _ => Raise TypeError
  end.

(** [[t.strip().lower() for t in terms if t and t.strip()]] *)
Definition clean_terms (terms : list string) : list string :=
  (λ t, str_lower str (strip t))
    <$> filter (λ t, t ≠ "" ∧ strip t ≠ "") terms.

(** [[j for j in postings if self._matches_any_keyword(j, kw)]] *)
Fixpoint filter_keywords (kw : list string) (postings : list Job)
    : result (list Job) :=
  match postings with
  | [] => Ok []
  | j :: rest =>
      keep ← matches_any_keyword j kw;
      kept ← filter_keywords kw rest;
      Ok (if keep : bool then j :: kept else kept)
  end.

Definition filter_location (loc_terms : list string) (postings : list Job)
    : list Job :=
  filter (λ j, existsb (λ term, contains term (str_lower str (location j)))
                       loc_terms = true) postings.

(** The client-side filters at the end of [fetch_jobs]. *)
Definition client_filters (keywords location_contains : option (list string))
    (postings : list Job) : result (list Job) :=
  postings ←
    match keywords with
    | None | Some [] => Ok postings
    | Some ks =>
        match clean_terms ks with
        | [] => Ok postings
        | kw => filter_keywords kw postings
        end
    end;
  match location_contains with
  | None | Some [] => Ok postings
  | Some ts =>
      match clean_terms ts with
      | [] => Ok postings
      | loc_terms => Ok (filter_location loc_terms postings)
      end
  end.

(** The local variables of [fetch_jobs] that the loop updates. *)
Record loop_state := mkLoop {
  start : nat;
  total : option Z;
  page : nat;
  seen_ids : gset string;
  repeat_sig_count : nat;
  last_sig : option (list string);
  postings : list Job
}.

Definition initial_state : loop_state := mkLoop 0 None 0 ∅ 0 None [].

(** One call of [_get_jobs_page]: the parameters sent and what came back. *)
Record page_log := mkLog {
  req_limit : Z;
  req_start : nat;
  response : result pyval
}.

Inductive outcome :=
| Stopped (why : stop_reason) (jobs : list Job)
| Raised (e : exn)
| OutOfFuel.

Section WithApi.
(** [_get_jobs_page(limit, start)] with its transport: a JSON value or an
    exception, and the next state of the remote service. *)
Context {St : Type} (get_jobs_page : St → Z → nat → result pyval * St).
Context (page_size : Z) (max_pages : option Z).

Definition at_max_pages (page : nat) : bool :=
  match max_pages with
  | Some m => bool_decide (m ≤ Z.of_nat page)%Z
  | None => false
  end.

Definition reached_total (total : option Z) (postings : list Job) : bool :=
  match total with
  | Some t => bool_decide (t ≤ Z.of_nat (length postings))%Z
  | None => false
  end.

(** [total] after [if total is None: total = self._extract_total(data)]. *)
Definition next_total (s : loop_state) (data : pydict) : result (option Z) :=
  match total s with
  | None => extract_total data
  | Some t => Ok (Some t)
  end.

(** [self._page_signature(raw_jobs, n=min(10, len(raw_jobs)))] *)
Definition signature_of (raw_jobs : list pydict) : list string :=
  page_signature raw_jobs (min 10 (length raw_jobs)).

(** [repeat_sig_count] after the comparison with [last_sig]. *)
Definition next_repeat (s : loop_state) (sig : list string) : nat :=
  if bool_decide (last_sig s = Some sig) then S (repeat_sig_count s) else O.

(** The state at the end of an iteration that did not [break]; [total']
    is [total] as the iteration left it. *)
Definition next_state (s : loop_state) (data : pydict) (total' : option Z)
    (seen' : gset string) (postings' : list Job) : loop_state :=
  let raw_jobs := extract_raw_jobs data in
  mkLoop (start s + length raw_jobs) total' (S (page s)) seen'
         (next_repeat s (signature_of raw_jobs))
         (Some (signature_of raw_jobs)) postings'.

(** The [while True] loop; [fuel] bounds the iterations still allowed. *)
Fixpoint fetch_loop (fuel : nat) (api : St) (s : loop_state)
    : outcome * list page_log :=
  match fuel with
  | O => (OutOfFuel, [])
  | S fuel' =>
      if at_max_pages (page s) then (Stopped ReachedMaxPages (postings s), [])
      else
        let '(resp, api') := get_jobs_page api page_size (start s) in
        let entry := mkLog page_size (start s) resp in
        match resp ≫= as_dict with
        | Raise e => (Raised e, [entry])
        | Ok data =>
            let raw_jobs := extract_raw_jobs data in
            match next_total s data with
            | Raise e => (Raised e, [entry])
            | Ok total' =>
                match raw_jobs with
                | [] => (Stopped EmptyPage (postings s), [entry])
                | _ =>
                    if bool_decide
                         (3 ≤ next_repeat s (signature_of raw_jobs))
                    then (Stopped SignatureRepeated (postings s), [entry])
                    else
                      match parse_page raw_jobs (seen_ids s) (postings s) with
                      | Raise e => (Raised e, [entry])
                      | Ok (seen', postings') =>
                          if reached_total total' postings'
                          then (Stopped ReachedTotal postings', [entry])
                          else
                            let '(o, tr) :=
                              fetch_loop fuel' api'
                                (next_state s data total' seen' postings') in
                            (o, entry :: tr)
                      end
                end
            end
        end
  end.

(** The runs of the loop that come to an end, as a relation: from the
    service state and the loop state, the outcome and the requests made. *)
Inductive runs_to : St → loop_state → outcome → list page_log → Prop :=
| run_max_pages api s :
    at_max_pages (page s) = true →
    runs_to api s (Stopped ReachedMaxPages (postings s)) []
| run_bad_response api s resp api' e :
    at_max_pages (page s) = false →
    get_jobs_page api page_size (start s) = (resp, api') →
    resp ≫= as_dict = Raise e →
    runs_to api s (Raised e) [mkLog page_size (start s) resp]
| run_bad_total api s resp api' data e :
    at_max_pages (page s) = false →
    get_jobs_page api page_size (start s) = (resp, api') →
    resp ≫= as_dict = Ok data →
    next_total s data = Raise e →
    runs_to api s (Raised e) [mkLog page_size (start s) resp]
| run_empty_page api s resp api' data total' :
    at_max_pages (page s) = false →
    get_jobs_page api page_size (start s) = (resp, api') →
    resp ≫= as_dict = Ok data →
    next_total s data = Ok total' →
    extract_raw_jobs data = [] →
    runs_to api s (Stopped EmptyPage (postings s))
            [mkLog page_size (start s) resp]
| run_signature_repeated api s resp api' data total' :
    at_max_pages (page s) = false →
    get_jobs_page api page_size (start s) = (resp, api') →
    resp ≫= as_dict = Ok data →
    next_total s data = Ok total' →
    extract_raw_jobs data ≠ [] →
    3 ≤ next_repeat s (signature_of (extract_raw_jobs data)) →
    runs_to api s (Stopped SignatureRepeated (postings s))
            [mkLog page_size (start s) resp]
| run_bad_posting api s resp api' data total' e :
    at_max_pages (page s) = false →
    get_jobs_page api page_size (start s) = (resp, api') →
    resp ≫= as_dict = Ok data →
    next_total s data = Ok total' →
    extract_raw_jobs data ≠ [] →
    next_repeat s (signature_of (extract_raw_jobs data)) < 3 →
    parse_page (extract_raw_jobs data) (seen_ids s) (postings s) = Raise e →
    runs_to api s (Raised e) [mkLog page_size (start s) resp]
| run_reached_total api s resp api' data total' seen' postings' :
    at_max_pages (page s) = false →
    get_jobs_page api page_size (start s) = (resp, api') →
    resp ≫= as_dict = Ok data →
    next_total s data = Ok total' →
    extract_raw_jobs data ≠ [] →
    next_repeat s (signature_of (extract_raw_jobs data)) < 3 →
    parse_page (extract_raw_jobs data) (seen_ids s) (postings s)
      = Ok (seen', postings') →
    reached_total total' postings' = true →
    runs_to api s (Stopped ReachedTotal postings')
            [mkLog page_size (start s) resp]
| run_next_page api s resp api' data total' seen' postings' o tr :
    at_max_pages (page s) = false →
    get_jobs_page api page_size (start s) = (resp, api') →
    resp ≫= as_dict = Ok data →
    next_total s data = Ok total' →
    extract_raw_jobs data ≠ [] →
    next_repeat s (signature_of (extract_raw_jobs data)) < 3 →
    parse_page (extract_raw_jobs data) (seen_ids s) (postings s)
      = Ok (seen', postings') →
    reached_total total' postings' = false →
    runs_to api' (next_state s data total' seen' postings') o tr →
    runs_to api s o (mkLog page_size (start s) resp :: tr).

(** [fetch_jobs]: the value returned (or the exception), and the page
    requests issued on the way. *)
Definition fetch_jobs (fuel : nat)
    (keywords location_contains : option (list string)) (api : St)
    : outcome * list page_log :=
  let '(o, tr) := fetch_loop fuel api initial_state in
  match o with
  | Stopped why postings =>
      match client_filters keywords location_contains postings with
      | Ok jobs => (Stopped why jobs, tr)
      | Raise e => (Raised e, tr)
      end
  | _ => (o, tr)
  end.

End WithApi.

(** [scrape_netflix()] with its defaults; 800 pages need at most 801 turns
    of the loop. *)
Definition scrape_netflix {St : Type}
    (get_jobs_page : St → Z → nat → result pyval * St) (api : St)
    : outcome * list page_log :=
  fetch_jobs get_jobs_page 100 (Some 800%Z) 801 None None api.

(** The raw postings of the page a logged request brought back. *)
Definition page_of (e : page_log) : list pydict :=
  match response e ≫= as_dict with
  | Ok data => extract_raw_jobs data
  | Raise _ => []
  end.

(** Each request starts where the records returned so far end. *)
Fixpoint advances_by_returned (start : nat) (tr : list page_log) : Prop :=
  match tr with
  | [] => True
  | e :: tr' =>
      req_start e = start
      ∧ advances_by_returned (start + length (page_of e)) tr'
  end.



End WithRepr.

(** ** Simulated services of the specification's scenarios *)

(** A service that holds [records] and returns at most [cap] of them per
    request, from position [start], with the overall count. *)
Definition capped_api (records : list pyval) (cap : nat)
    (_ : unit) (limit : Z) (start : nat) : result pyval * unit :=
  (Ok (PDict [("jobs", PList (take (min cap (Z.to_nat limit))
                                   (drop start records)));
              ("count", PInt (Z.of_nat (length records)))]), tt).

(** A service whose pagination is stuck: the same page on every request. *)
Definition stuck_api (page : list pyval)
    (_ : unit) (_ : Z) (_ : nat) : result pyval * unit :=
  (Ok (PDict [("jobs", PList page)]), tt).

Definition sample_record (i : nat) : pyval :=
  PDict [("id", PInt (Z.of_nat i));
         ("title", PStr ("Engineer " +:+ pretty i))].

Definition sample_records (n : nat) : list pyval :=
  sample_record <$> seq 1 n.





End Netflix.

(** * COMSOL connector (src/connectors/comsol.py) *)
Module Comsol.
Import Py.

(** The [mapping] of [_country_to_iso2]. *)
Definition mapping : list (string * string) :=
  [("usa", "US");
   ("us", "US");
   ("united states", "US");
   ("united states of america", "US");
   ("united kingdom", "GB");
   ("uk", "GB");
   ("great britain", "GB");
   ("china", "CN");
   ("germany", "DE");
   ("france", "FR");
   ("italy", "IT");
   ("finland", "FI");
   ("sweden", "SE");
   ("india", "IN")].

Fixpoint mapping_get (m : list (string * string)) (key : string)
    : option string :=
  match m with
  | [] => None
  | (k, v) :: m' => if decide (k = key) then Some v else mapping_get m' key
  end.

(** [[p.strip() for p in (heading or "").split(",") if p.strip()]] *)
Definition heading_parts (heading : option string) : list string :=
  strip <$> filter (λ p, strip p ≠ "") (split "," (default "" heading)).

Section WithNormalizer.
(** The methods of [str] that follow the interpreter's tables, and
    [utils.location.normalize_location(country, state, city)], whose module
    is not part of the sources at hand. *)
Context (str : str_methods).
Context (normalize_location : string → string → string → option string).

(** The [key] looked up in [mapping]. *)
Definition country_key (country_raw : string) : string :=
  let c := strip country_raw in
  let c_norm := collapse_ws c in
  let c_norm := remove_char "." c_norm in
  str_casefold str c_norm.

(** [_country_to_iso2] *)
Definition country_to_iso2 (country_raw : string) : string :=
  let c := strip country_raw in
  match mapping_get mapping (country_key country_raw) with
  | Some code =>
      if bool_decide (code = "") then str_upper str (strip c) else code
  | None => str_upper str (strip c)
  end.

(** [_normalize_heading_location] *)
Definition normalize_heading_location (heading : option string)
    : option string :=
  match heading_parts heading with
  | [] | [_] => None
  | [city; country] => normalize_location (country_to_iso2 country) "" city
  | city :: state :: country :: _ =>
      normalize_location (country_to_iso2 country) state city
  end.

End WithNormalizer.

(** A stand-in for [normalize_location] in the examples; it keeps its three
    arguments apart. *)
Definition tagged_location (country state city : string) : option string :=
  Some ("city=" +:+ city +:+ ";state=" +:+ state +:+ ";country=" +:+ country).

End Comsol.

(** * Profile configuration loader (src/core/config.py) *)
Module Config.
Import Py.

Record ProfileConfig := mkProfileConfig {
  name : string;
  db_path : string;
  enabled_companies : list pyval
}.

(** [Path("profiles") / f"{profile_name}.yaml"], for the relative file
    stems the dashboard passes. *)
Definition profile_path (profile_name : string) : string :=
  "profiles/" +:+ profile_name +:+ ".yaml".

Definition default_db_path (profile_name : string) : string :=
  "data/" +:+ profile_name +:+ ".sqlite".

Section WithFiles.
(** The files on disk ([None]: no such file), PyYAML's [safe_load], and
    [repr] for [str(...)] of values that are not text. *)
Context (read_text : string → option string).
Context (safe_load : string → result pyval).
Context (repr_other : pyval → string).

Definition load_profile (profile_name : string) : result ProfileConfig :=
  match read_text (profile_path profile_name) with
  | None => Raise FileNotFoundError
  | Some text =>
      loaded ← safe_load text;
      data ← as_dict (py_or loaded (PDict []));
      let db := dict_get_or data "db_path"
                  (PStr (default_db_path profile_name)) in
      companies ← py_list (dict_get_or data "enabled_companies" (PList []));
      Ok (mkProfileConfig profile_name (py_str repr_other db) companies)
  end.

End WithFiles.

(** ** Documents used in the examples *)

Definition YAMLError : exn := OtherError "yaml.YAMLError".

(** A profile whose list of companies was left open. *)
Definition broken_text : string := "enabled_companies: [Netflix".

(** What PyYAML does on the documents of the examples: the empty document
    loads as [None], the flow sequence left open is a parser error. *)
Definition safe_load_examples (text : string) : result pyval :=
  if bool_decide (text = broken_text) then Raise YAMLError else Ok PNone.

Definition disk_with (path text : string) (p : string) : option string :=
  if bool_decide (p = path) then Some text else None.

End Config.

(** * Dashboard: the browse view's pagination (src/app.py) *)
Module Dashboard.

(** [max(1, (total - 1) // page_size + 1)] *)
Definition max_page (total page_size : Z) : Z :=
  Z.max 1 ((total - 1) / page_size + 1).

(** Modelled from the spec: the page-number control is Streamlit's
    [st.number_input], which is outside the repository; the specification
    gives its contract: a page number out of range is clamped to
    [[min_value, max_value]]. *)
Definition number_input (min_value max_value requested : Z) : Z :=
  Z.max min_value (Z.min max_value requested).

(** [l[start:stop]] *)
Definition py_slice {A} (l : list A) (start stop : Z) : list A :=
  let n := Z.of_nat (length l) in
  let norm (i : Z) := if (i <? 0)%Z then Z.max 0 (i + n) else Z.min i n in
  take (Z.to_nat (norm stop - norm start)) (drop (Z.to_nat (norm start)) l).

(** What the paginated list shows: the page taken, the number of pages, the
    rows of the page, and the numbers of the caption
    ["Showing {start + 1}–{min(end, total)} of {total} jobs"]. *)
Record browse_view (A : Type) := mkView {
  page : Z;
  pages : Z;
  page_rows : list A;
  caption_first : Z;
  caption_last : Z;
  caption_total : Z
}.
Arguments mkView {A}.
Arguments page {A}.
Arguments pages {A}.
Arguments page_rows {A}.
Arguments caption_first {A}.
Arguments caption_last {A}.
Arguments caption_total {A}.

(** The [else] branch of [if not rows]; [None] is the "No results." line.
    [requested] is the page number the operator asks for. *)
Definition browse {A} (rows : list A) (page_size requested : Z)
    : option (browse_view A) :=
  match rows with
  | [] => None
  | _ =>
      let total := Z.of_nat (length rows) in
      let max_page := max_page total page_size in
      let page := number_input 1 max_page requested in
      let start := ((page - 1) * page_size)%Z in
      let end_ := (start + page_size)%Z in
      Some (mkView page max_page (py_slice rows start end_)
                   (start + 1) (Z.min end_ total) total)
  end.

(** [ceil(total / page_size)]: the least number of pages that hold
    [total] rows. *)
Definition ceil_div (total page_size : Z) : Z :=
  (- ((- total) / page_size))%Z.

End Dashboard.

(** * Storage layer, the query helpers (src/storage/db.py) *)
Module Queries.
Import Storage.

(** The bytes 0x80 to 0xBF, which continue a character of UTF-8, off the
    start of a text: what is left of a character after its first byte is
    skipped. *)
Fixpoint skip_continuation (s : string) : string :=
  match s with
  | String a s' =>
      if ((128 <=? N_of_ascii a) && (N_of_ascii a <=? 191))%N
      then skip_continuation s' else s
  | EmptyString => EmptyString
  end.

(** SQLite's [LIKE]: [%] stands for any run of characters, [_] for any one
    character, and letters of the ASCII range match whatever their case.
    The run that [%] stands for is counted in bytes here; what matches
    from inside a character matches from the start of that character as
    well. *)
Fixpoint like (pattern text : string) : bool :=
  match pattern with
  | EmptyString => bool_decide (text = EmptyString)
  | String c pattern' =>
      if bool_decide (c = "%"%char)
      then (fix any (t : string) : bool :=
              like pattern' t
              || match t with
                 | EmptyString => false
                 | String _ t' => any t'
                 end) text
      else
        match text with
        | EmptyString => false
        | String d text' =>
            if bool_decide (c = "_"%char)
            then like pattern' (skip_continuation text')
            else bool_decide (Py.lower_char c = Py.lower_char d)
                 && like pattern' text'
        end
  end.

(** A row as the listing queries return it:
    [(title, url, location, first_seen, last_seen)]. *)
Definition listing : Type :=
  string * string * option string * string * string.

Definition listing_of (r : job_row) : listing :=
  (row_title r, row_url r, row_location r, first_seen r, last_seen r).

(** [ORDER BY last_seen DESC, title ASC] *)
Definition recent_first (a b : listing) : Prop :=
  if decide (a.2 = b.2) then String.le a.1.1.1.1 b.1.1.1.1
  else String.le b.2 a.2.

#[global] Instance recent_first_dec : RelDecision recent_first.
Proof. intros a b. unfold recent_first. destruct (decide (a.2 = b.2)); apply _. Defined.

(** [LIMIT ?]: a negative limit is no limit. *)
Definition sql_limit {A} (limit : Z) (l : list A) : list A :=
  if (limit <? 0)%Z then l else take (Z.to_nat limit) l.

(** [if company:] and [if location and location != "(Any)":] *)
Definition company_given (company : option string) : option string :=
  match company with
  | Some co => if bool_decide (co = "") then None else Some co
  | None => None
  end.

Definition location_given (location : option string) : option string :=
  match location with
  | Some l =>
      if bool_decide (l = "") || bool_decide (l = "(Any)") then None
      else Some l
  | None => None
  end.

(** The [WHERE] clause the two listing queries assemble; [pattern] is the
    [LIKE] pattern of [search_jobs], absent in [list_recent]. *)
Definition listing_where (pattern company location : option string)
    (r : job_row) : bool :=
  match pattern with
  | Some q => like q (row_title r)
  | None => true
  end
  && match company_given company with
     | Some co => bool_decide (row_company r = co)
     | None => true
     end
  && match location_given location with
     | Some l => bool_decide (row_location r = Some l)
     | None => true
     end.

Definition listing_query (pattern company location : option string)
    (limit : Z) (c : conn) : list listing :=
  sql_limit limit
    (merge_sort recent_first
       (listing_of
          <$> filter (λ r, listing_where pattern company location r = true)
                     (map_to_list (jobs c)).*2)).

(** [search_jobs(conn, company, query, location, limit)] *)
Definition search_jobs (c : conn) (company : option string) (query : string)
    (location : option string) (limit : Z) : list listing :=
  listing_query (Some ("%" +:+ Py.strip query +:+ "%")) company location
                limit c.

(** [list_recent(conn, company, location, limit)] *)
Definition list_recent (c : conn) (company location : option string)
    (limit : Z) : list listing :=
  listing_query None company location limit c.

(** SQL [TRIM(x)]: spaces off both ends, and only spaces. *)
Fixpoint sql_ltrim (s : string) : string :=
  match s with
  | String a s' => if bool_decide (a = " "%char) then sql_ltrim s' else s
  | EmptyString => EmptyString
  end.

Fixpoint sql_rtrim (s : string) : string :=
  match s with
  | String a s' =>
      match sql_rtrim s' with
      | EmptyString =>
          if bool_decide (a = " "%char) then EmptyString
          else String a EmptyString
      | r => String a r
      end
  | EmptyString => EmptyString
  end.

Definition sql_trim (s : string) : string := sql_rtrim (sql_ltrim s).

(** [list_locations(conn, company)]; [cols] are the column names that
    [PRAGMA table_info(jobs)] reports. *)
Definition list_locations (cols : list string) (c : conn)
    (company : option string) : list string :=
  if bool_decide ("location" ∈ cols) then
    merge_sort String.le
      (remove_dups
         (omap (λ r : job_row,
                  match row_location r with
                  | Some l =>
                      if bool_decide (sql_trim l = "") then None
                      else match company_given company with
                           | Some co =>
                               if bool_decide (row_company r = co)
                               then Some l else None
                           | None => Some l
                           end
                  | None => None
                  end)
               (map_to_list (jobs c)).*2))
  else [].

(** The columns of [jobs] as [init_db] creates the table. *)
Definition jobs_columns : list string :=
  ["job_id"; "company"; "title"; "url"; "location"; "first_seen";
   "last_seen"].

(** One company's share of the dashboard's "Run update now" (src/app.py):
    upsert what the connector returned, count today's new rows, record the
    run. Returns the database and the count shown in the summary. *)
Definition update_company (today now : string) (c : conn) (co : string)
    (scraped : list JobLike) : conn * nat :=
  let c1 := upsert_jobs today c scraped in
  let new := get_new_today today c1 co in
  (record_run today now c1 co (Z.of_nat (length scraped))
              (Z.of_nat (length new)),
   length new).

End Queries.

(** * The upsert statement, seen from one key *)
Module UpsertSteps.
Import Storage.

(** The row an [INSERT] creates, and the row [DO UPDATE SET] leaves. *)
Definition insert_row (today : string) (j : JobLike) : job_row :=
  mkJobRow (company j) (title j) (url j) (location j) today today.

Definition update_row (today : string) (r : job_row) (j : JobLike) : job_row :=
  mkJobRow (row_company r) (title j) (url j)
           (coalesce (location j) (row_location r)) (first_seen r) today.

(** What one statement does to the row of key [k], if there is one. *)
Definition step_key (today k : string) (o : option job_row) (j : JobLike)
    : option job_row :=
  if decide (job_id j = k)
  then Some match o with
            | Some r => update_row today r j
            | None => insert_row today j
            end
  else o.

(** The same on a row that is there. *)
Definition step_row (today k : string) (r : job_row) (j : JobLike) : job_row :=
  if decide (job_id j = k) then update_row today r j else r.

(** A row that [update_row] turns into [insert_row]. *)
Definition seed_row (today : string) (j : JobLike) : job_row :=
  mkJobRow (company j) "" "" None today "".

End UpsertSteps.

(** * Netflix connector, the transport (src/connectors/netflix.py) *)
Module Transport.
Import Py.

(** What the program reads of a [requests.Response]. *)
Record Response := mkResponse {
  status_code : Z;
  text : string
}.

Definition HTTPError : exn := OtherError "requests.HTTPError".
Definition RuntimeError : exn := OtherError "RuntimeError".
Definition ValueError : exn := OtherError "ValueError".

(** The body of the [try]: the status test of [_request_with_retries],
    then [resp.raise_for_status()]. *)
Definition checked (r : result Response) : result Response :=
  match r with
  | Raise e => Raise e
  | Ok resp =>
      if ((500 <=? status_code resp) || (status_code resp =? 429))%Z
      then Raise HTTPError
      else if ((400 <=? status_code resp) && (status_code resp <? 600))%Z
           then Raise HTTPError
           else Ok resp
  end.

(** What happens, in order: an attempt with what came of it, or a
    [time.sleep(self.backoff_s * attempt)], noted by its [attempt]. *)
Inductive event :=
| Attempt (r : result Response)
| Sleep (attempt : nat).

Section WithSession.
(** [self.session.request(...)]: a response or an exception, and the next
    state of the network; and [time.sleep(self.backoff_s * attempt)], by
    its [attempt], which raises when the product is not a length of time. *)
Context {St : Type} (request : St → result Response * St).
Context (sleep : nat → result unit).

(** The [for attempt in range(1, self.max_retries + 1)] loop, with [left]
    attempts to go; falling out of it is the [raise RuntimeError]. What
    [except Exception] does not catch leaves the loop at once, and so does
    what is raised in the handler. *)
Fixpoint retry_loop (left attempt : nat) (st : St)
    : result Response * list event * St :=
  match left with
  | O => (Raise RuntimeError, [], st)
  | S left' =>
      let '(r, st') := request st in
      match checked r with
      | Ok resp => (Ok resp, [Attempt (Ok resp)], st')
      | Raise e =>
          if is_Exception e then
            match left' with
            | O => (Raise e, [Attempt (Raise e)], st')
            | S _ =>
                match sleep attempt with
                | Raise e' =>
                    (Raise e', [Attempt (Raise e); Sleep attempt], st')
                | Ok _ =>
                    let '(out, events, st'') :=
                      retry_loop left' (S attempt) st' in
                    (out, Attempt (Raise e) :: Sleep attempt :: events, st'')
                end
            end
          else (Raise e, [Attempt (Raise e)], st')
      end
  end.

(** [_request_with_retries] *)
Definition request_with_retries (max_retries : Z) (st : St)
    : result Response * list event * St :=
  retry_loop (Z.to_nat max_retries) 1 st.

End WithSession.

(** The events of attempts that came out as [results], the first of them
    numbered [attempt]: a sleep after each but the last. *)
Fixpoint attempts_with_sleeps (attempt : nat)
    (results : list (result Response)) : list event :=
  match results with
  | [] => []
  | [r] => [Attempt r]
  | r :: rest =>
      Attempt r :: Sleep attempt :: attempts_with_sleeps (S attempt) rest
  end.

(** [time.sleep] of a length of time that is a number and not negative. *)
Definition sleeps (_ : nat) : result unit := Ok tt.

(** [time.sleep] of a negative length of time. *)
Definition sleep_refused (_ : nat) : result unit := Raise ValueError.

(** A network on which the first request is interrupted from the
    keyboard. *)
Definition interrupted (sent : nat) : result Response * nat :=
  (if bool_decide (sent = 0) then Raise (Interrupt "KeyboardInterrupt")
   else Ok (mkResponse 200 "{}"), S sent).

(** A network on which the first [n] requests time out and the next one is
    answered with status 200. *)
Definition flaky (n : nat) (sent : nat) : result Response * nat :=
  (if bool_decide (sent < n) then Raise (OtherError "requests.Timeout")
   else Ok (mkResponse 200 "{}"), S sent).

End Transport.

(** * Dashboard: the panels around the list (src/app.py) *)
Module Panels.
Import Storage Queries.

(** [SELECT DISTINCT company FROM jobs ORDER BY company] *)
Definition db_companies (c : conn) : list string :=
  merge_sort String.le
    (remove_dups (row_company <$> (map_to_list (jobs c)).*2)).

Definition default_companies : list string :=
  ["MathWorks"; "Amazon"; "Dassault Systemes"].

(** The choices of the company dropdown after ["(All)"].
    [enabled_companies] is [cfg.enabled_companies], a list of names;
    [enabled], the set made of it, is empty when the list is, and holds
    what the list holds. *)
Definition companies (db_companies enabled_companies : list string)
    : list string :=
  match enabled_companies with
  | [] =>
      match db_companies with
      | [] => default_companies
      | _ => db_companies
      end
  | _ =>
      let companies := filter (λ c, c ∈ enabled_companies) db_companies in
      companies ++ filter (λ c, c ∉ companies) enabled_companies
  end.

Definition company_options (db_companies enabled_companies : list string)
    : list string :=
  "(All)" :: companies db_companies enabled_companies.


(** [l.sort(key=key, reverse=True)]: descending by key, entries of equal
    keys in the order they had. *)
Fixpoint insert_desc {A} (key : A → string) (x : A) (l : list A) : list A :=
  match l with
  | [] => [x]
  | y :: l' =>
      if decide (String.le (key y) (key x)) then x :: y :: l'
      else y :: insert_desc key x l'
  end.

Definition sort_desc {A} (key : A → string) (l : list A) : list A :=
  foldr (insert_desc key) [] l.

(** The panel "New postings (today)": the rows shown and [total_new]. *)
Definition new_postings (today : string) (c : conn)
    (selected_company : string) (show_limit : Z)
    : list (string * string * string * string) * nat :=
  let new_today :=
    if bool_decide (selected_company ≠ "(All)")
    then get_new_today today c selected_company else [] in
  let new_today := sort_desc (λ r, r.1.2) new_today in
  (Dashboard.py_slice new_today 0 show_limit, length new_today).


End Panels.

(** * Profile documents used in the examples of the loader *)
Module ConfigSamples.
Import Py.

(** What PyYAML loads from the document
    [db_path:] / [enabled_companies: Netflix]: a key with no value is
    [None], a bare word is a string. *)
Definition bare_text : string :=
  "db_path:" +:+ String "010" "enabled_companies: Netflix".

Definition bare_profile : pyval :=
  PDict [("db_path", PNone); ("enabled_companies", PStr "Netflix")].

Definition safe_load_bare (text : string) : result pyval :=
  if bool_decide (text = bare_text) then Ok bare_profile else Ok PNone.

End ConfigSamples.

(** * Properties of the storage layer *)
Section StorageFacts.
Import Storage.

Implicit Types (today : string) (tbl : gmap string job_row) (j : JobLike).

Lemma upsert_row_other today tbl j k :
  job_id j ≠ k → upsert_row today tbl j !! k = tbl !! k.
Proof.
  intros Hne. unfold upsert_row.
  destruct (tbl !! job_id j); by rewrite lookup_insert_ne.
Qed.

Lemma upsert_row_self today tbl j :
  upsert_row today tbl j !! job_id j =
  Some match tbl !! job_id j with
       | None => mkJobRow (company j) (title j) (url j) (location j) today today
       | Some r =>
           mkJobRow (row_company r) (title j) (url j)
                    (coalesce (location j) (row_location r))
                    (first_seen r) today
       end.
Proof.
  unfold upsert_row. destruct (tbl !! job_id j); by rewrite lookup_insert_eq.
Qed.

Lemma upsert_fold_other today js : ∀ tbl k,
  Forall (λ j', job_id j' ≠ k) js →
  foldl (upsert_row today) tbl js !! k = tbl !! k.
Proof.
  induction js as [|j js IH]; intros tbl k Hall; [done|].
  apply Forall_cons in Hall as [Hj Hjs]. simpl.
  rewrite IH by done. by apply upsert_row_other.
Qed.

Lemma upsert_fold_app today tbl js1 js2 :
  foldl (upsert_row today) tbl (js1 ++ js2) =
  foldl (upsert_row today) (foldl (upsert_row today) tbl js1) js2.
Proof. apply foldl_app. Qed.

(** The day a row was first seen never changes, and a row is there after a
    batch exactly when it was there before or the batch names it. *)
Lemma upsert_fold_first_seen today js : ∀ tbl k r,
  foldl (upsert_row today) tbl js !! k = Some r →
  first_seen r = match tbl !! k with
                 | Some r0 => first_seen r0
                 | None => today
                 end
  ∧ (is_Some (tbl !! k) ∨ k ∈ job_id <$> js).
Proof.
  induction js as [|j js IH]; intros tbl k r Hr; simpl in *.
  { rewrite Hr. eauto. }
  apply IH in Hr as [Hfs Hin].
  destruct (decide (job_id j = k)) as [<-|Hne].
  - rewrite upsert_row_self in Hfs. split.
    + rewrite Hfs. by destruct (tbl !! job_id j).
    + right. apply elem_of_cons. by left.
  - rewrite upsert_row_other in Hfs, Hin by done. split; [done|].
    destruct Hin as [?|?]; [by left|].
    right. apply elem_of_cons. by right.
Qed.

Lemma upsert_fold_present today js : ∀ tbl k,
  is_Some (tbl !! k) ∨ k ∈ job_id <$> js →
  is_Some (foldl (upsert_row today) tbl js !! k).
Proof.
  induction js as [|j js IH]; intros tbl k Hk; simpl in *.
  { destruct Hk as [?|Hk]; [done|]. by apply elem_of_nil in Hk. }
  apply IH. destruct (decide (job_id j = k)) as [<-|Hne].
  - left. rewrite upsert_row_self. eauto.
  - rewrite upsert_row_other by done.
    destruct Hk as [?|Hk]; [by left|]. right.
    apply elem_of_cons in Hk as [?|?]; [congruence|done].
Qed.

(** C1. For every batch [pre ++ j :: post] in which no later job carries
    [j]'s id: if the id is not in the table when [j] comes up, the batch
    leaves a new row for it with [first_seen = last_seen = today]; if it is,
    the batch leaves that row with [title], [url] and [last_seen = today]
    updated, [company] and [first_seen] kept, and [location] replaced only
    by a location that is not absent, so that a known location survives a
    job whose location is absent. The table [j] meets is the one before
    the batch when no earlier job of the batch carries its id. *)
Theorem upsert_jobs_insert_or_update today (c : conn) pre j post :
  Forall (λ j', job_id j' ≠ job_id j) post →
  let before := jobs (upsert_jobs today c pre) in
  let after := jobs (upsert_jobs today c (pre ++ j :: post)) in
  (Forall (λ j', job_id j' ≠ job_id j) pre →
     before !! job_id j = jobs c !! job_id j)
  ∧ (before !! job_id j = None →
     after !! job_id j =
       Some (mkJobRow (company j) (title j) (url j) (location j) today today))
  ∧ (∀ r, before !! job_id j = Some r →
     after !! job_id j =
       Some (mkJobRow (row_company r) (title j) (url j)
               (match location j with
                | Some l => Some l
                | None => row_location r
                end)
               (first_seen r) today))
  ∧ (∀ r l, before !! job_id j = Some r → location j = None →
     row_location r = Some l →
     row_location <$> (after !! job_id j) = Some (Some l)).
Proof.
  intros Hpost before after.
  assert (Hafter : after !! job_id j =
            Some match before !! job_id j with
                 | None =>
                     mkJobRow (company j) (title j) (url j) (location j)
                              today today
                 | Some r =>
                     mkJobRow (row_company r) (title j) (url j)
                              (coalesce (location j) (row_location r))
                              (first_seen r) today
                 end).
  { subst before after. unfold upsert_jobs. simpl.
    rewrite upsert_fold_app. simpl.
    rewrite upsert_fold_other by done. apply upsert_row_self. }
  split; [|split; [|split]].
  - intros Hpre. subst before. unfold upsert_jobs. simpl.
    by apply upsert_fold_other.
  - intros Hnone. by rewrite Hafter, Hnone.
  - intros r Hr. by rewrite Hafter, Hr.
  - intros r l Hr Hloc Hl. rewrite Hafter, Hr. simpl.
    by rewrite Hloc, Hl.
Qed.

Lemma coalesce_twice (a b : option string) :
  coalesce a (coalesce a b) = coalesce a b.
Proof. by destruct a. Qed.

Lemma upsert_row_twice today tbl j :
  upsert_row today (upsert_row today tbl j) j = upsert_row today tbl j.
Proof.
  unfold upsert_row at 1. rewrite upsert_row_self.
  unfold upsert_row. destruct (tbl !! job_id j) as [r|]; simpl;
    rewrite insert_insert_eq; [by rewrite coalesce_twice|].
  by destruct (location j).
Qed.

(** C4. Upserting the same job twice on the same day changes nothing the
    first upsert had not done; when the job was not in the table before, the
    table has gained one row, the row of that [job_id], and its
    [first_seen] and [last_seen] are both that day. *)
Theorem upsert_jobs_twice_same_day today (c : conn) j :
  let once := upsert_jobs today c [j] in
  let twice := upsert_jobs today once [j] in
  twice = once
  ∧ (jobs c !! job_id j = None →
     jobs twice !! job_id j =
       Some (mkJobRow (company j) (title j) (url j) (location j) today today)
     ∧ size (jobs twice) = S (size (jobs c))
     ∧ ∀ r, jobs twice !! job_id j = Some r →
            first_seen r = today ∧ last_seen r = today).
Proof.
  intros once twice.
  assert (Heq : twice = once).
  { subst once twice. unfold upsert_jobs. simpl. by rewrite upsert_row_twice. }
  split; [done|]. intros Hfresh. rewrite Heq.
  assert (Hrow : jobs once !! job_id j =
            Some (mkJobRow (company j) (title j) (url j) (location j)
                    today today)).
  { subst once. unfold upsert_jobs. simpl.
    by rewrite upsert_row_self, Hfresh. }
  split; [done|]. split.
  - subst once. unfold upsert_jobs, upsert_row. simpl. rewrite Hfresh.
    by apply map_size_insert_None.
  - intros r Hr. rewrite Hrow in Hr. by injection Hr as <-.
Qed.

Lemma upsert_jobs_twice_same_day_witness :
  jobs empty_db !! job_id (sample_job None) = None
  ∧ jobs (upsert_jobs day1 (upsert_jobs day1 empty_db [sample_job None])
            [sample_job None]) !! job_id (sample_job None) =
      Some (mkJobRow "COMSOL" "Applications Engineer"
              "https://www.comsol.com/company/careers/job/12345/" None
              day1 day1).
Proof.
  assert (Hfresh : jobs empty_db !! job_id (sample_job None) = None)
    by reflexivity.
  split; [exact Hfresh|].
  destruct (upsert_jobs_twice_same_day day1 empty_db (sample_job None))
    as [_ Hrow].
  exact (proj1 (Hrow Hfresh)).
Defined.

Lemma upsert_jobs_insert_or_update_witness :
  Forall (λ j', job_id j' ≠ job_id (sample_job None)) [other_job]
  ∧ row_location <$>
      (jobs (upsert_jobs day2 sample_db ([] ++ sample_job None :: [other_job]))
         !! job_id (sample_job None)) = Some (Some "Burlington, MA").
Proof.
  assert (Hpost : Forall (λ j', job_id j' ≠ job_id (sample_job None))
                         [other_job]).
  { repeat constructor. discriminate. }
  split; [exact Hpost|].
  destruct (upsert_jobs_insert_or_update day2 sample_db [] (sample_job None)
              [other_job] Hpost) as (_ & _ & _ & Hkeep).
  eapply Hkeep; reflexivity.
Defined.

(** ** [get_new_today] *)

Lemma new_today_tuples_elem today (c : conn) co t :
  t ∈ new_today_tuples today c co ↔
  ∃ k r, jobs c !! k = Some r ∧ row_company r = co ∧ first_seen r = today
         ∧ t = (row_title r, row_url r, first_seen r, last_seen r).
Proof.
  unfold new_today_tuples. rewrite list_elem_of_fmap. split.
  - intros ([k r] & -> & Hin). apply list_elem_of_filter in Hin as [[Hc Hd] Hin].
    apply elem_of_map_to_list in Hin. simpl in *. by exists k, r.
  - intros (k & r & Hkr & Hc & Hd & ->). exists (k, r). split; [done|].
    apply list_elem_of_filter. split; [done|]. by apply elem_of_map_to_list.
Qed.

#[local] Instance title_asc_total : Total title_asc.
Proof. intros a b. unfold title_asc. apply (total String.le). Qed.

#[local] Instance title_asc_trans : Transitive title_asc.
Proof. intros a b d. unfold title_asc. apply (transitivity (R := String.le)). Qed.

(** C5. [get_new_today] returns the [(title, url, first_seen, last_seen)]
    tuples of exactly the rows of the company whose [first_seen] is today,
    one tuple per such row, in ascending order of title. In particular,
    after a batch upserted on an earlier day and a batch upserted today into
    an empty database, these are the rows of the jobs that today's batch
    brought and the earlier one had not. *)
Theorem get_new_today_exact today (c : conn) co :
  let res := get_new_today today c co in
  StronglySorted (λ a b, String.le a.1.1.1 b.1.1.1) res
  ∧ (∀ t, t ∈ res ↔
       ∃ k r, jobs c !! k = Some r ∧ row_company r = co
              ∧ first_seen r = today
              ∧ t = (row_title r, row_url r, first_seen r, last_seen r))
  ∧ length res =
      size (filter (λ kr : string * job_row,
                      row_company kr.2 = co ∧ first_seen kr.2 = today)
                   (jobs c))
  ∧ (∀ d1 js1 js2 t, d1 ≠ today →
       let c' := upsert_jobs today (upsert_jobs d1 empty_db js1) js2 in
       t ∈ get_new_today today c' co ↔
       ∃ k r, jobs c' !! k = Some r ∧ row_company r = co
              ∧ k ∈ (job_id <$> js2) ∧ (k ∉ (job_id <$> js1))
              ∧ t = (row_title r, row_url r, first_seen r, last_seen r)).
Proof.
  intros res.
  assert (Hmem : ∀ c0 t, t ∈ get_new_today today c0 co ↔
       ∃ k r, jobs c0 !! k = Some r ∧ row_company r = co
              ∧ first_seen r = today
              ∧ t = (row_title r, row_url r, first_seen r, last_seen r)).
  { intros c0 t. unfold get_new_today.
    rewrite (merge_sort_Permutation title_asc). apply new_today_tuples_elem. }
  split; [|split; [|split]].
  - subst res. unfold get_new_today.
    apply (StronglySorted_merge_sort title_asc).
  - apply Hmem.
  - subst res. unfold get_new_today.
    rewrite (merge_sort_Permutation title_asc). unfold new_today_tuples.
    rewrite length_fmap, (map_filter_alt _ (jobs c)).
    rewrite map_size_list_to_map; [done|].
    eapply NoDup_fmap_2_strong, NoDup_filter, NoDup_map_to_list.
    intros [k1 r1] [k2 r2] Hin1 Hin2 Hk. simpl in Hk. subst k2.
    apply list_elem_of_filter in Hin1 as [_ Hin1].
    apply list_elem_of_filter in Hin2 as [_ Hin2].
    apply elem_of_map_to_list in Hin1, Hin2. congruence.
  - intros d1 js1 js2 t Hd c'. rewrite Hmem. subst c'.
    unfold upsert_jobs, empty_db. simpl.
    set (tbl1 := foldl (upsert_row d1) ∅ js1).
    split.
    + intros (k & r & Hr & Hco & Hfs & ->). exists k, r.
      destruct (upsert_fold_first_seen _ _ _ _ _ Hr) as [Hfs' Hin].
      destruct (tbl1 !! k) as [r0|] eqn:Hk1.
      { destruct (upsert_fold_first_seen _ _ _ _ _ Hk1) as [Hfs0 _].
        rewrite lookup_empty in Hfs0. congruence. }
      destruct Hin as [[? ?]|Hin]; [done|].
      repeat split; try done.
      intros Hin1.
      destruct (upsert_fold_present d1 js1 ∅ k (or_intror Hin1)) as [? ?].
      subst tbl1. congruence.
    + intros (k & r & Hr & Hco & Hin2 & Hnin1 & ->). exists k, r.
      repeat split; try done.
      destruct (upsert_fold_first_seen _ _ _ _ _ Hr) as [Hfs' _].
      destruct (tbl1 !! k) as [r0|] eqn:Hk1; [|done].
      destruct (upsert_fold_first_seen _ _ _ _ _ Hk1) as [_ [[? Hx]|Hin]].
      * by rewrite lookup_empty in Hx.
      * done.
Qed.

Lemma get_new_today_exact_witness :
  day1 ≠ day2
  ∧ (("Technical Writer", "https://www.comsol.com/company/careers/job/777/",
      day2, day2)
       ∈ get_new_today day2
           (upsert_jobs day2 (upsert_jobs day1 empty_db [sample_job None])
              [sample_job None; other_job]) "COMSOL"
     ↔ ∃ k r,
         jobs (upsert_jobs day2 (upsert_jobs day1 empty_db [sample_job None])
                 [sample_job None; other_job]) !! k = Some r
         ∧ row_company r = "COMSOL"
         ∧ k ∈ (job_id <$> [sample_job None; other_job])
         ∧ (k ∉ (job_id <$> [sample_job None]))
         ∧ ("Technical Writer",
            "https://www.comsol.com/company/careers/job/777/", day2, day2)
           = (row_title r, row_url r, first_seen r, last_seen r)).
Proof.
  assert (Hd : day1 ≠ day2) by discriminate.
  split; [exact Hd|].
  destruct (get_new_today_exact day2 empty_db "COMSOL") as (_ & _ & _ & Hnew).
  exact (Hnew day1 [sample_job None] [sample_job None; other_job] _ Hd).
Defined.

(** ** Run records *)

Lemma run_tuples_elem (c : conn) co t :
  t ∈ run_tuples c co ↔
  ∃ d r, runs c !! (d, co) = Some r
         ∧ t = (d, ran_at r, total_jobs r, new_jobs r).
Proof.
  unfold run_tuples. rewrite list_elem_of_fmap. split.
  - intros ([[d co'] r] & -> & Hin).
    apply list_elem_of_filter in Hin as [Hco Hin].
    apply elem_of_map_to_list in Hin. simpl in *. subst co'. by exists d, r.
  - intros (d & r & Hr & ->). exists ((d, co), r). split; [done|].
    apply list_elem_of_filter. split; [done|]. by apply elem_of_map_to_list.
Qed.

#[local] Instance run_date_desc_total : Total run_date_desc.
Proof.
  intros a b. unfold run_date_desc.
  destruct (total String.le a.1.1.1 b.1.1.1); auto.
Qed.

#[local] Instance run_date_desc_trans : Transitive run_date_desc.
Proof.
  intros a b d Hab Hbd. unfold run_date_desc in *.
  by apply (transitivity (R := String.le)) with b.1.1.1.
Qed.

(** C6. A second [record_run] for the same company on the same date leaves
    one row for [(run_date, company)], holding the second call's [ran_at],
    [total_jobs] and [new_jobs]: the table is the one the second call alone
    would have produced. [get_last_run] is absent exactly when the company
    has no runs, and otherwise is the company's row whose [run_date] is the
    latest. *)
Theorem record_run_overwrites_and_last_run (c : conn) co :
  (∀ today now1 now2 t1 n1 t2 n2,
     let c1 := record_run today now1 c co t1 n1 in
     let c2 := record_run today now2 c1 co t2 n2 in
     runs c2 !! (today, co) = Some (mkRunRow now2 t2 n2)
     ∧ size (runs c2) = size (runs c1)
     ∧ c2 = record_run today now2 c co t2 n2)
  ∧ (get_last_run c co = None ↔ ∀ d, runs c !! (d, co) = None)
  ∧ (∀ d at_ t n, get_last_run c co = Some (d, at_, t, n) →
       runs c !! (d, co) = Some (mkRunRow at_ t n)
       ∧ ∀ d', is_Some (runs c !! (d', co)) → String.le d' d).
Proof.
  split; [|split].
  - intros today now1 now2 t1 n1 t2 n2 c1 c2. subst c1 c2.
    unfold record_run. simpl. split; [by rewrite lookup_insert_eq|]. split.
    + rewrite map_size_insert_Some; [done|].
      rewrite lookup_insert_eq. eauto.
    + by rewrite insert_insert_eq.
  - unfold get_last_run. rewrite head_None. split.
    + intros Hnil d. destruct (runs c !! (d, co)) as [r|] eqn:Hr; [|done].
      assert (Hin : (d, ran_at r, total_jobs r, new_jobs r)
                      ∈ merge_sort run_date_desc (run_tuples c co)).
      { rewrite (merge_sort_Permutation run_date_desc).
        apply run_tuples_elem. eauto. }
      rewrite Hnil in Hin. by apply elem_of_nil in Hin.
    + intros Hnone.
      destruct (merge_sort run_date_desc (run_tuples c co)) as [|t l] eqn:Hs;
        [done|].
      assert (Hin : t ∈ run_tuples c co).
      { rewrite <- (merge_sort_Permutation run_date_desc), Hs. by left. }
      apply run_tuples_elem in Hin as (d & r & Hr & _).
      by rewrite Hnone in Hr.
  - intros d at_ t n Hlast. unfold get_last_run in Hlast.
    apply head_Some in Hlast as [l Hs].
    assert (Hsorted : StronglySorted run_date_desc ((d, at_, t, n) :: l)).
    { rewrite <- Hs. apply (StronglySorted_merge_sort run_date_desc). }
    assert (Hperm : ∀ x, x ∈ (d, at_, t, n) :: l ↔ x ∈ run_tuples c co).
    { intros x. by rewrite <- Hs, (merge_sort_Permutation run_date_desc). }
    split.
    + assert (Hin : (d, at_, t, n) ∈ run_tuples c co)
        by (apply Hperm; by left).
      apply run_tuples_elem in Hin as (d0 & r & Hr & Heq).
      injection Heq as -> -> -> ->. by destruct r.
    + intros d' [r' Hr'].
      assert (Hin : (d', ran_at r', total_jobs r', new_jobs r')
                      ∈ (d, at_, t, n) :: l).
      { apply Hperm, run_tuples_elem. eauto. }
      apply elem_of_cons in Hin as [Heq|Hin].
      * injection Heq as -> _ _ _. done.
      * apply StronglySorted_cons in Hsorted as [Hall _].
        rewrite Forall_forall in Hall. by apply Hall in Hin.
Qed.

Lemma record_run_overwrites_and_last_run_witness :
  get_last_run sample_runs "Netflix"
    = Some (day2, "2024-05-02T09:00:00", 27%Z, 2%Z)
  ∧ runs sample_runs !! (day2, "Netflix")
    = Some (mkRunRow "2024-05-02T09:00:00" 27 2)
  ∧ ∀ d', is_Some (runs sample_runs !! (d', "Netflix")) → String.le d' day2.
Proof.
  assert (Hlast : get_last_run sample_runs "Netflix"
                  = Some (day2, "2024-05-02T09:00:00", 27%Z, 2%Z))
    by (vm_compute; reflexivity).
  split; [exact Hlast|].
  destruct (record_run_overwrites_and_last_run sample_runs "Netflix")
    as (_ & _ & Hmax).
  exact (Hmax _ _ _ _ Hlast).
Defined.


End StorageFacts.

(** * Properties of the Netflix connector *)
Section NetflixFacts.
Import Py Netflix.
Context (repr_other : pyval → string).
Context (str : str_methods).

(** ** Parsing one posting *)






(** ** The parsing loop of a page *)



Section Loop.
Context {St : Type} (get_jobs_page : St → Z → nat → result pyval * St).
Context (page_size : Z) (max_pages : option Z).

Local Abbreviation loop :=
  (fetch_loop repr_other str get_jobs_page page_size max_pages).
Local Abbreviation runs :=
  (runs_to repr_other str get_jobs_page page_size max_pages).


Lemma page_of_log limit start resp data :
  resp ≫= as_dict = Ok data →
  page_of (mkLog limit start resp) = extract_raw_jobs data.
Proof. intros Hresp. unfold page_of. simpl. by rewrite Hresp. Qed.

(** Every request asks for [page_size] records, and starts where the
    records returned by the requests before it end. *)
Lemma runs_advance api s o tr :
  runs api s o tr →
  advances_by_returned (start s) tr
  ∧ Forall (λ e, req_limit e = page_size) tr.
Proof.
  induction 1 as [| | | | | | |api s resp api' data total' seen' postings' o tr
                     Hmax Hget Hresp Htotal Hne Hrep Hparse Htot Hrun
                     [IHadv IHlim]];
    simpl; try (by repeat constructor).
  split; [|by constructor].
  split; [done|]. by rewrite (page_of_log _ _ _ data).
Qed.



(** With a page limit, the loop comes to an end within that many turns and
    one more. *)
Lemma fetch_loop_terminates m fuel : ∀ api s,
  max_pages = Some m →
  (Z.max 0 (m - Z.of_nat (page s)) < Z.of_nat fuel)%Z →
  (loop fuel api s).1 ≠ OutOfFuel.
Proof.
  induction fuel as [|fuel IH]; intros api s Hm Hfuel; simpl; [lia|].
  destruct (at_max_pages max_pages (page s)) eqn:Hmax; [done|].
  destruct (get_jobs_page api page_size (start s)) as [resp api'].
  destruct (resp ≫= as_dict) as [data|e]; [|done].
  destruct (next_total str s data) as [total'|e]; [|done].
  destruct (extract_raw_jobs data) as [|raw raws] eqn:Hraw; [done|].
  case_bool_decide; [done|].
  destruct (parse_page _ _ _ _) as [[seen' postings']|e]; [|done].
  destruct (reached_total _ _); [done|].
  specialize (IH api' (next_state repr_other s data total' seen' postings')
                Hm).
  destruct (loop fuel api' _) as [o tr]. simpl in *. apply IH.
  unfold at_max_pages in Hmax. rewrite Hm in Hmax.
  apply bool_decide_eq_false in Hmax. lia.
Qed.

(** The same facts for the requests a run has made when it runs out of
    fuel. *)
Lemma fetch_loop_advance fuel : ∀ api s,
  advances_by_returned (start s) (loop fuel api s).2
  ∧ Forall (λ e, req_limit e = page_size) (loop fuel api s).2.
Proof.
  induction fuel as [|fuel IH]; intros api s; simpl; [by split|].
  destruct (at_max_pages max_pages (page s)); [by split|].
  destruct (get_jobs_page api page_size (start s)) as [resp api'].
  destruct (resp ≫= as_dict) as [data|e] eqn:Hresp;
    [|by repeat constructor].
  destruct (next_total str s data) as [total'|e];
    [|by repeat constructor].
  destruct (extract_raw_jobs data) as [|raw raws] eqn:Hraw;
    [by repeat constructor|].
  case_bool_decide; [by repeat constructor|].
  destruct (parse_page _ _ _ _) as [[seen' postings']|e];
    [|by repeat constructor].
  destruct (reached_total _ _); [by repeat constructor|].
  destruct (IH api' (next_state repr_other s data total' seen' postings'))
    as [IHadv IHlim].
  destruct (loop fuel api' _) as [o tr]. simpl in *.
  split; [|by constructor]. split; [done|].
  by rewrite (page_of_log _ _ _ data).
Qed.


Section Stuck.
(** The service answers every request with a page of the same signature. *)
Context (sig : list string).
Hypothesis same_signature : ∀ api limit start, ∃ data api',
  get_jobs_page api limit start = (Ok (PDict data), api')
  ∧ signature_of repr_other (extract_raw_jobs data) = sig.




End Stuck.

(** ** A service that answers every request with the same page *)



Section SamePage.
Context (data : pydict).
Hypothesis same_page : ∀ api limit start, ∃ api',
  get_jobs_page api limit start = (Ok (PDict data), api').





End SamePage.

End Loop.

Lemma fetch_jobs_trace {St : Type}
    (get_jobs_page : St → Z → nat → result pyval * St)
    page_size max_pages fuel keywords location_contains api :
  (fetch_jobs repr_other str get_jobs_page page_size max_pages fuel
     keywords location_contains api).2
  = (fetch_loop repr_other str get_jobs_page page_size max_pages fuel api
       initial_state).2.
Proof.
  unfold fetch_jobs. destruct (fetch_loop _ _ _ _ _ _ _) as [[why jobs|e|] tr];
    [|done..].
  by destruct (client_filters str _ _ _).
Qed.

(** With a page limit and fuel beyond it, [fetch_jobs] returns or raises. *)
Lemma fetch_jobs_terminates {St : Type}
    (get_jobs_page : St → Z → nat → result pyval * St)
    page_size m fuel keywords location_contains api :
  (Z.max 0 m < Z.of_nat fuel)%Z →
  (fetch_jobs repr_other str get_jobs_page page_size (Some m) fuel
     keywords location_contains api).1 ≠ OutOfFuel.
Proof.
  intros Hfuel.
  pose proof (fetch_loop_terminates get_jobs_page page_size (Some m) m fuel
                api initial_state eq_refl) as Hloop.
  unfold fetch_jobs.
  destruct (fetch_loop _ _ _ _ _ _ _) as [[why jobs|e|] tr]; simpl in *.
  - by destruct (client_filters str _ _ _).
  - done.
  - apply Hloop. lia.
Qed.

Lemma scrape_netflix_terminates {St : Type}
    (get_jobs_page : St → Z → nat → result pyval * St) api :
  (scrape_netflix repr_other str get_jobs_page api).1 ≠ OutOfFuel.
Proof. apply fetch_jobs_terminates. lia. Qed.

(** C2. Every page request of [fetch_jobs] asks for [page_size] records and
    starts at the number of records the responses before it returned: the
    first at 0, each next one further by the length of the page just
    received. Against a service that holds 25 records, reports that count
    and returns at most 10 of them per request, a fetch with [limit = 100]
    makes exactly three requests, with [start] 0, 10 and 20, receives pages
    of 10, 10 and 5 records, and returns 25 jobs with 25 different ids. *)
Theorem pagination_advances_by_returned :
  (∀ (St : Type) (get_jobs_page : St → Z → nat → result pyval * St)
     page_size max_pages fuel keywords location_contains api,
     let tr := (fetch_jobs repr_other str get_jobs_page page_size max_pages fuel
                  keywords location_contains api).2 in
     advances_by_returned 0 tr ∧ Forall (λ e, req_limit e = page_size) tr)
  ∧ (∀ fuel,
       let r := fetch_jobs repr_other str (capped_api (sample_records 25) 10)
                  100 (Some 800%Z) (3 + fuel) None None tt in
       req_start <$> r.2 = [0; 10; 20]
       ∧ (λ e, length (page_of e)) <$> r.2 = [10; 10; 5]
       ∧ Forall (λ e, req_limit e = 100%Z) r.2
       ∧ ∃ jobs, r.1 = Stopped ReachedTotal jobs
                 ∧ length jobs = 25
                 ∧ NoDup (job_id <$> jobs))
  ∧ req_start <$>
      (scrape_netflix repr_other str (capped_api (sample_records 25) 10) tt).2
    = [0; 10; 20].
Proof.
  split; [|split].
  - intros St get_jobs_page page_size max_pages fuel kw loc api tr.
    subst tr. rewrite fetch_jobs_trace.
    apply (fetch_loop_advance get_jobs_page page_size max_pages fuel api
             initial_state).
  - intros fuel r. vm_compute in r. subst r. simpl.
    split; [done|]. split; [done|]. split; [by repeat constructor|].
    eexists. split; [reflexivity|]. split; [reflexivity|].
    refine (bool_decide_unpack _ _). by vm_compute.
  - by vm_compute.
Qed.



(** ** The client-side filters only drop postings *)






End NetflixFacts.

(** ** The scenarios, run *)
Section NetflixExamples.
Import Py Netflix.


(** The stuck service, run: four requests, then the ten jobs of the page. *)
Example stuck_scenario :
  req_start <$> (scrape_netflix no_repr ascii_methods
                   (stuck_api (sample_records 10)) tt).2
    = [0; 10; 20; 30]
  ∧ ∃ jobs,
      (scrape_netflix no_repr ascii_methods
         (stuck_api (sample_records 10)) tt).1
        = Stopped SignatureRepeated jobs
      ∧ length jobs = 10.
Proof. split; [by vm_compute|]. eexists. split; by vm_compute. Qed.



End NetflixExamples.

(** * Properties of the text operations *)
Section TextFacts.
Import Py.

(** ** White space at the start of a text *)

Lemma after_space_length s r :
  after_space s = Some r → String.length r < String.length s.
Proof.
  destruct s as [|a [|b [|c s]]]; simpl; try done.
  - destruct (is_space a); [|done]. intros [= <-]. simpl. lia.
  - destruct (is_space a); [intros [= <-]; simpl; lia|].
    destruct (is_space2 a b); [|done]. intros [= <-]. simpl. lia.
  - destruct (is_space a); [intros [= <-]; simpl; lia|].
    destruct (is_space2 a b); [intros [= <-]; simpl; lia|].
    destruct (is_space3 a b c); [|done]. intros [= <-]. simpl. lia.
Qed.

Lemma after_space_app s r w :
  after_space s = Some r → after_space (s +:+ w) = Some (r +:+ w).
Proof.
  destruct s as [|a [|b [|c s]]]; simpl; try done.
  - destruct (is_space a); [|done]. by intros [= <-].
  - destruct (is_space a); [by intros [= <-]|].
    destruct (is_space2 a b); [|done]. by intros [= <-].
  - destruct (is_space a); [by intros [= <-]|].
    destruct (is_space2 a b); [by intros [= <-]|].
    destruct (is_space3 a b c); [|done]. by intros [= <-].
Qed.

(** Induction on a text, one character of white space or one byte of
    something else at a time. *)
Lemma text_ind (P : string → Prop) :
  P "" →
  (∀ a s, after_space (String a s) = None → P s → P (String a s)) →
  (∀ s r, after_space s = Some r → P r → P s) →
  ∀ s, P s.
Proof.
  intros Hnil Hbyte Hspace s.
  remember (String.length s) as n eqn:Hn. revert s Hn.
  induction n as [n IH] using lt_wf_ind. intros s ->.
  destruct (after_space s) as [r|] eqn:Hs.
  - apply (Hspace s r Hs).
    by apply (IH _ (after_space_length s r Hs)).
  - destruct s as [|a s]; [done|]. apply Hbyte; [done|].
    apply (IH (String.length s)); [simpl; lia|done].
Qed.

Lemma lstrip_unfold s :
  lstrip s = match after_space s with Some r => lstrip r | None => s end.
Proof.
  destruct s as [|a [|b [|c s]]]; simpl; try done.
  - by destruct (is_space a).
  - destruct (is_space a); [done|]. by destruct (is_space2 a b).
  - destruct (is_space a); [done|]. destruct (is_space2 a b); [done|].
    by destruct (is_space3 a b c).
Qed.

Lemma collapse_ws_go_unfold in_ws s :
  collapse_ws_go in_ws s
  = match after_space s with
    | Some r => emit_space in_ws (collapse_ws_go true r)
    | None =>
        match s with
        | String a s1 => String a (collapse_ws_go false s1)
        | EmptyString => EmptyString
        end
    end.
Proof.
  destruct s as [|a [|b [|c s]]]; simpl; try done.
  - by destruct (is_space a).
  - destruct (is_space a); [done|]. by destruct (is_space2 a b).
  - destruct (is_space a); [done|]. destruct (is_space2 a b); [done|].
    by destruct (is_space3 a b c).
Qed.

Lemma lstrip_fix s : after_space s = None → lstrip s = s.
Proof. intros Hs. by rewrite lstrip_unfold, Hs. Qed.

(** What [lstrip] leaves does not start with white space. *)
Lemma lstrip_head s : after_space (lstrip s) = None.
Proof.
  induction s as [|a s Hs _|s r Hs IH] using text_ind; [done| |].
  - by rewrite lstrip_fix.
  - by rewrite lstrip_unfold, Hs.
Qed.

Lemma lstrip_idem s : lstrip (lstrip s) = lstrip s.
Proof. apply lstrip_fix, lstrip_head. Qed.

Lemma lstrip_app_blank s w : lstrip s = "" → lstrip (s +:+ w) = lstrip w.
Proof.
  induction s as [|a s Hs _|s r Hs IH] using text_ind; [done| |].
  - by rewrite lstrip_fix.
  - rewrite (lstrip_unfold s), (lstrip_unfold (s +:+ w)).
    by rewrite (after_space_app s r w Hs), Hs.
Qed.

(** ** White space at the end *)

Lemma rstrip_cons a s :
  rstrip (String a s)
  = if bool_decide (lstrip (String a s) = "") then "" else String a (rstrip s).
Proof. reflexivity. Qed.

(** [rstrip] cuts off a text of white space only. *)
Lemma rstrip_split s : ∃ w, s = rstrip s +:+ w ∧ lstrip w = "".
Proof.
  induction s as [|a s (w & Hw & Hblank)]; [by exists ""|].
  rewrite rstrip_cons. case_bool_decide as Hall.
  - by exists (String a s).
  - exists w. split; [|done]. change (String a s = String a (rstrip s +:+ w)).
    by f_equal.
Qed.

Lemma rstrip_blank s : rstrip s = "" ↔ lstrip s = "".
Proof.
  destruct s as [|a s]; [done|]. rewrite rstrip_cons.
  by case_bool_decide.
Qed.

Lemma lstrip_rstrip_blank s : lstrip (rstrip s) = "" → lstrip s = "".
Proof.
  intros Hblank. destruct (rstrip_split s) as (w & Hs & Hw).
  rewrite Hs. by rewrite lstrip_app_blank.
Qed.

Lemma rstrip_idem s : rstrip (rstrip s) = rstrip s.
Proof.
  induction s as [|a s IH]; [done|].
  rewrite rstrip_cons. case_bool_decide as Hall; [done|].
  rewrite rstrip_cons, IH. rewrite bool_decide_eq_false_2; [done|].
  intros Hblank. apply Hall, lstrip_rstrip_blank.
  rewrite rstrip_cons. by rewrite bool_decide_eq_false_2.
Qed.

Lemma after_space_rstrip s :
  after_space s = None → after_space (rstrip s) = None.
Proof.
  intros Hs. destruct (after_space (rstrip s)) as [r|] eqn:Hr; [|done].
  destruct (rstrip_split s) as (w & Hsplit & _).
  rewrite Hsplit in Hs. by rewrite (after_space_app _ r w Hr) in Hs.
Qed.

Lemma strip_head s : after_space (strip s) = None.
Proof. apply after_space_rstrip, lstrip_head. Qed.

Lemma lstrip_strip s : lstrip (strip s) = strip s.
Proof. apply lstrip_fix, strip_head. Qed.

(** Trimming what is trimmed changes nothing. *)
Lemma strip_idem s : strip (strip s) = strip s.
Proof.
  unfold strip at 1. rewrite lstrip_strip. unfold strip. apply rstrip_idem.
Qed.

Lemma strip_blank s : strip s = "" ↔ lstrip s = "".
Proof. unfold strip. by rewrite rstrip_blank, lstrip_idem. Qed.


(** ** Maps that change nothing but ASCII letters *)

Lemma upper_char_letters : letter_map upper_char.
Proof.
  intros a.
  destruct a as [[] [] [] [] [] [] [] []];
    (split; [intros H; try reflexivity; exfalso; simpl in H; lia
            |intros H; simpl in *; lia]).
Qed.



Local Ltac bools :=
  repeat match goal with
  | H : (_ || _)%bool = true |- _ => apply orb_true_iff in H as [H|H]
  | H : (_ && _)%bool = true |- _ => apply andb_true_iff in H as [? ?]
  | H : (_ =? _)%N = true |- _ => apply N.eqb_eq in H
  | H : (_ <=? _)%N = true |- _ => apply N.leb_le in H
  end.

Lemma is_space_low a : is_space a = true → (N_of_ascii a ≤ 32)%N.
Proof. unfold is_space. cbv zeta. intros H. bools; lia. Qed.

Lemma is_space2_high a b :
  is_space2 a b = true → (128 ≤ N_of_ascii a)%N ∧ (128 ≤ N_of_ascii b)%N.
Proof. unfold is_space2. cbv zeta. intros H. bools; lia. Qed.

Lemma is_space3_high a b c :
  is_space3 a b c = true →
  (128 ≤ N_of_ascii a)%N ∧ (128 ≤ N_of_ascii b)%N ∧ (128 ≤ N_of_ascii c)%N.
Proof. unfold is_space3. cbv zeta. intros H. bools; lia. Qed.

Section LetterMap.
Context (f : ascii → ascii) (Hf : letter_map f).

Lemma letter_map_cases a :
  f a = a ∨ ((64 < N_of_ascii a < 128)%N ∧ (64 < N_of_ascii (f a) < 128)%N).
Proof.
  destruct (Hf a) as [Hsame Hletter].
  destruct (decide (64 < N_of_ascii a < 128)%N) as [Hin|Hout].
  - right. split; [done|]. by apply Hletter.
  - left. apply Hsame. lia.
Qed.

Lemma is_space_map a : is_space (f a) = is_space a.
Proof.
  destruct (letter_map_cases a) as [->|[Ha Hfa]]; [done|].
  destruct (is_space (f a)) eqn:H1, (is_space a) eqn:H2; try done.
  - apply is_space_low in H1. lia.
  - apply is_space_low in H2. lia.
Qed.

Lemma is_space2_map a b : is_space2 (f a) (f b) = is_space2 a b.
Proof.
  destruct (is_space2 (f a) (f b)) eqn:H1, (is_space2 a b) eqn:H2; try done.
  - pose proof (is_space2_high _ _ H1) as [Ha Hb].
    destruct (letter_map_cases a) as [Ea|[? ?]]; [|lia].
    destruct (letter_map_cases b) as [Eb|[? ?]]; [|lia].
    rewrite Ea, Eb in *. congruence.
  - pose proof (is_space2_high _ _ H2) as [Ha Hb].
    destruct (letter_map_cases a) as [Ea|[? ?]]; [|lia].
    destruct (letter_map_cases b) as [Eb|[? ?]]; [|lia].
    rewrite Ea, Eb in *. congruence.
Qed.

Lemma is_space3_map a b c : is_space3 (f a) (f b) (f c) = is_space3 a b c.
Proof.
  destruct (is_space3 (f a) (f b) (f c)) eqn:H1, (is_space3 a b c) eqn:H2;
    try done.
  - pose proof (is_space3_high _ _ _ H1) as (Ha & Hb & Hc).
    destruct (letter_map_cases a) as [Ea|[? ?]]; [|lia].
    destruct (letter_map_cases b) as [Eb|[? ?]]; [|lia].
    destruct (letter_map_cases c) as [Ec|[? ?]]; [|lia].
    rewrite Ea, Eb, Ec in *. congruence.
  - pose proof (is_space3_high _ _ _ H2) as (Ha & Hb & Hc).
    destruct (letter_map_cases a) as [Ea|[? ?]]; [|lia].
    destruct (letter_map_cases b) as [Eb|[? ?]]; [|lia].
    destruct (letter_map_cases c) as [Ec|[? ?]]; [|lia].
    rewrite Ea, Eb, Ec in *. congruence.
Qed.

Lemma after_space_map s :
  after_space (map_chars f s) = map_chars f <$> after_space s.
Proof.
  destruct s as [|a [|b [|c s]]]; simpl; try done.
  - rewrite is_space_map. by destruct (is_space a).
  - rewrite is_space_map, is_space2_map.
    destruct (is_space a); [done|]. by destruct (is_space2 a b).
  - rewrite is_space_map, is_space2_map, is_space3_map.
    destruct (is_space a); [done|]. destruct (is_space2 a b); [done|].
    by destruct (is_space3 a b c).
Qed.

Lemma lstrip_map s : lstrip (map_chars f s) = map_chars f (lstrip s).
Proof.
  induction s as [|a s Hs _|s r Hs IH] using text_ind; [done| |].
  - rewrite (lstrip_fix (String a s)) by done.
    apply lstrip_fix. by rewrite after_space_map, Hs.
  - rewrite (lstrip_unfold s), (lstrip_unfold (map_chars f s)).
    by rewrite after_space_map, Hs.
Qed.

Lemma map_chars_empty s : map_chars f s = "" ↔ s = "".
Proof. by destruct s. Qed.

Lemma rstrip_map s : rstrip (map_chars f s) = map_chars f (rstrip s).
Proof.
  induction s as [|a s IH]; [done|].
  change (map_chars f (String a s)) with (String (f a) (map_chars f s)) at 1.
  rewrite !rstrip_cons.
  change (String (f a) (map_chars f s)) with (map_chars f (String a s)).
  rewrite lstrip_map.
  rewrite (bool_decide_ext _ _ (map_chars_empty (lstrip (String a s)))).
  case_bool_decide; [done|]. simpl. by rewrite IH.
Qed.

Lemma strip_map s : strip (map_chars f s) = map_chars f (strip s).
Proof. unfold strip. by rewrite lstrip_map, rstrip_map. Qed.

Lemma collapse_ws_map s : ∀ in_ws,
  collapse_ws_go in_ws (map_chars f s) = map_chars f (collapse_ws_go in_ws s).
Proof.
  induction s as [|a s Hs IH|s r Hs IH] using text_ind; intros in_ws; [done| |].
  - rewrite (collapse_ws_go_unfold _ (String a s)), Hs.
    rewrite collapse_ws_go_unfold, after_space_map, Hs. simpl.
    by rewrite IH.
  - rewrite (collapse_ws_go_unfold _ s), Hs.
    rewrite collapse_ws_go_unfold, after_space_map, Hs. simpl.
    rewrite IH. destruct in_ws; [done|]. simpl. f_equal.
    destruct (letter_map_cases " ") as [->|[? _]]; [done|]. simpl in *. lia.
Qed.

Lemma map_char_period a : f a = "."%char ↔ a = "."%char.
Proof.
  destruct (letter_map_cases a) as [->|[Ha Hfa]]; [done|].
  split; intros E; rewrite E in *; simpl in *; lia.
Qed.

Lemma remove_period_map s :
  remove_char "." (map_chars f s) = map_chars f (remove_char "." s).
Proof.
  induction s as [|a s IH]; simpl; [done|].
  destruct (decide (a = "."%char)) as [->|Hne].
  - rewrite decide_True by (by apply map_char_period). done.
  - rewrite decide_False by (by rewrite map_char_period). simpl.
    by rewrite IH.
Qed.

Lemma ascii_text_map s : ascii_text s → ascii_text (map_chars f s).
Proof.
  unfold ascii_text. induction s as [|a s IH]; simpl; [done|].
  intros [Ha Hs]%Forall_cons. constructor; [|by apply IH].
  destruct (letter_map_cases a) as [->|[_ ?]]; [done|lia].
Qed.

End LetterMap.

Lemma lower_upper_char a : lower_char (upper_char a) = lower_char a.
Proof. by destruct a as [[] [] [] [] [] [] [] []]. Qed.


Lemma lower_upper s : lower (upper s) = lower s.
Proof.
  unfold lower, upper. induction s as [|a s IH]; simpl; [done|].
  by rewrite lower_upper_char, IH.
Qed.


(** ** Texts of ASCII characters *)

Lemma ascii_text_cons a s :
  ascii_text (String a s) ↔ (N_of_ascii a < 128)%N ∧ ascii_text s.
Proof. unfold ascii_text. simpl. by rewrite Forall_cons. Qed.

Lemma ascii_text_nil : ascii_text "".
Proof. constructor. Qed.

Lemma ascii_text_after_space s r :
  after_space s = Some r → ascii_text s → ascii_text r.
Proof.
  destruct s as [|a [|b [|c s]]]; simpl; try done;
    rewrite ?ascii_text_cons;
    repeat match goal with
    | |- context [if ?b then _ else _] => destruct b
    end; try done; intros [= <-]; rewrite ?ascii_text_cons; tauto.
Qed.

Lemma ascii_text_lstrip s : ascii_text s → ascii_text (lstrip s).
Proof.
  induction s as [|a s Hs _|s r Hs IH] using text_ind; [done| |].
  - by rewrite lstrip_fix.
  - intros Hascii. rewrite lstrip_unfold, Hs.
    by apply IH, (ascii_text_after_space s r).
Qed.

Lemma ascii_text_rstrip s : ascii_text s → ascii_text (rstrip s).
Proof.
  induction s as [|a s IH]; [done|]. rewrite rstrip_cons.
  intros [Ha Hs]%ascii_text_cons. case_bool_decide; [by constructor|].
  apply ascii_text_cons. split; [done|by apply IH].
Qed.

Lemma ascii_text_strip s : ascii_text s → ascii_text (strip s).
Proof. intros Hs. by apply ascii_text_rstrip, ascii_text_lstrip. Qed.

Lemma ascii_text_collapse_ws s : ∀ in_ws,
  ascii_text s → ascii_text (collapse_ws_go in_ws s).
Proof.
  induction s as [|a s Hs IH|s r Hs IH] using text_ind; intros in_ws; [done| |].
  - rewrite collapse_ws_go_unfold, Hs. intros [Ha Hascii]%ascii_text_cons.
    apply ascii_text_cons. split; [done|by apply IH].
  - rewrite collapse_ws_go_unfold, Hs. intros Hascii.
    assert (Hr : ascii_text (collapse_ws_go true r))
      by (by apply IH, (ascii_text_after_space s r)).
    destruct in_ws; [done|]. apply ascii_text_cons. split; [simpl; lia|done].
Qed.

Lemma ascii_text_remove_char c s :
  ascii_text s → ascii_text (remove_char c s).
Proof.
  induction s as [|a s IH]; simpl; [done|].
  intros [Ha Hs]%ascii_text_cons. case_decide; [by apply IH|].
  apply ascii_text_cons. split; [done|by apply IH].
Qed.

(** ** Texts with no white space *)


Lemma spaceless_ascii s : spaceless s → ascii_text s.
Proof. intros Hs. eapply Forall_impl; [exact Hs|]. by intros a [? _]. Qed.








End TextFacts.

(** * Properties of the COMSOL connector *)
Section ComsolFacts.
Import Py Comsol.

Section WithStr.
Context (str : str_methods).

(** The text from which the key is folded. *)
Local Abbreviation key_text c := (remove_char "." (collapse_ws (strip c))).

Lemma ascii_text_key_text c : ascii_text c → ascii_text (key_text c).
Proof.
  intros Hc. by apply ascii_text_remove_char, ascii_text_collapse_ws,
    ascii_text_strip.
Qed.

Lemma key_text_map f c :
  letter_map f → key_text (map_chars f c) = map_chars f (key_text c).
Proof.
  intros Hf. unfold collapse_ws.
  by rewrite strip_map, collapse_ws_map, remove_period_map.
Qed.

Lemma country_key_strip c : country_key str (strip c) = country_key str c.
Proof. unfold country_key. by rewrite strip_idem. Qed.

(** On a name of ASCII characters the methods of [str] are the ASCII
    maps. *)
Lemma country_key_ascii c :
  ascii_case str → ascii_text c → country_key str c = lower (key_text c).
Proof.
  intros Hcase Hc. unfold country_key.
  by destruct (Hcase _ (ascii_text_key_text c Hc)) as (_ & _ & ->).
Qed.

Lemma country_key_upper c :
  ascii_case str → ascii_text c →
  country_key str (str_upper str c) = country_key str c.
Proof.
  intros Hcase Hc. destruct (Hcase c Hc) as (-> & _ & _).
  rewrite (country_key_ascii (upper c) Hcase
             (ascii_text_map _ upper_char_letters _ Hc)),
    (country_key_ascii c Hcase Hc).
  unfold upper. rewrite key_text_map by apply upper_char_letters.
  apply lower_upper.
Qed.



Lemma country_to_iso2_ascii c :
  ascii_case str → ascii_text c →
  country_to_iso2 str c = country_to_iso2 ascii_methods c.
Proof.
  intros Hcase Hc. unfold country_to_iso2.
  rewrite (country_key_ascii c Hcase Hc).
  assert (Hkey : country_key ascii_methods c = lower (key_text c)) by done.
  rewrite Hkey.
  destruct (Hcase (strip (strip c))) as (-> & _ & _); [|done].
  by do 2 apply ascii_text_strip.
Qed.


Section WithNormalizer.
Context (normalize_location : string → string → string → option string).


End WithNormalizer.
End WithStr.
End ComsolFacts.

Section ComsolExamples.
Import Py Comsol.

Lemma ascii_methods_case : ascii_case ascii_methods.
Proof. by intros s _. Qed.


(** The headings of the specification's examples, and two whose white
    space is a no-break space. *)
Example heading_examples :
  normalize_heading_location ascii_methods tagged_location
    (Some "Burlington, MA, USA")
    = Some "city=Burlington;state=MA;country=US"
  ∧ normalize_heading_location ascii_methods tagged_location
      (Some "Beijing, China")
    = Some "city=Beijing;state=;country=CN"
  ∧ normalize_heading_location ascii_methods tagged_location
      (Some "Cambridge, United Kingdom")
    = Some "city=Cambridge;state=;country=GB"
  ∧ normalize_heading_location ascii_methods tagged_location (Some "Remote")
    = None
  ∧ normalize_heading_location ascii_methods tagged_location
      (Some " Stockholm ,, AB , Sweden, Europe")
    = Some "city=Stockholm;state=AB;country=SE"
  ∧ normalize_heading_location ascii_methods tagged_location
      (Some ("Remote," +:+ nbsp))
    = None
  ∧ normalize_heading_location ascii_methods tagged_location
      (Some ("Paris," +:+ nbsp +:+ "France"))
    = Some "city=Paris;state=;country=FR".
Proof. by vm_compute. Qed.

(** Names, as any [str] that is right about ASCII text maps them; a period
    next to white space leaves a space behind, and the name is not
    found. *)
Example country_examples str :
  ascii_case str →
  country_to_iso2 str " U.S.A. " = "US"
  ∧ country_to_iso2 str "united   Kingdom" = "GB"
  ∧ country_to_iso2 str "Great Britain" = "GB"
  ∧ country_to_iso2 str " the Netherlands " = "THE NETHERLANDS"
  ∧ country_to_iso2 str "jp" = "JP"
  ∧ country_to_iso2 str "U.S.A ." = "U.S.A .".
Proof.
  intros Hcase.
  rewrite !(country_to_iso2_ascii str) by
    (done || (apply (bool_decide_unpack _); by vm_compute)).
  by vm_compute.
Qed.

End ComsolExamples.

(** * Properties of the profile loader *)
Section ConfigFacts.
Import Py Config.

(** C8, as the code has it. Without the profile file the loader fails with
    [FileNotFoundError], and, the YAML loader not raising that condition
    itself, only then. With the file there: a document that loads as a
    mapping gives the configuration in which every key that is missing has
    its default ([data/<name>.sqlite], the empty list); a document that
    loads as nothing (empty: [None], or any other false value) is taken for
    the empty mapping and gives all defaults; a malformed document is not
    caught: the error of the YAML loader is the error of [load_profile];
    and a document that loads as a true value that is not a mapping fails
    on the first key lookup. *)
Theorem load_profile_outcomes (read_text : string → option string)
    (safe_load : string → result pyval) (repr_other : pyval → string)
    (profile_name : string) :
  let load := load_profile read_text safe_load repr_other in
  let defaults :=
    mkProfileConfig profile_name ("data/" +:+ profile_name +:+ ".sqlite") [] in
  (read_text ("profiles/" +:+ profile_name +:+ ".yaml") = None →
     load profile_name = Raise FileNotFoundError)
  ∧ ((∀ text, safe_load text ≠ Raise FileNotFoundError) →
     (load profile_name = Raise FileNotFoundError
      ↔ read_text ("profiles/" +:+ profile_name +:+ ".yaml") = None))
  ∧ (∀ text,
       read_text ("profiles/" +:+ profile_name +:+ ".yaml") = Some text →
       (∀ e, safe_load text = Raise e → load profile_name = Raise e)
       ∧ (∀ v, safe_load text = Ok v → truthy v = false →
            load profile_name = Ok defaults)
       ∧ (∀ d, safe_load text = Ok (PDict d) →
            dict_lookup d "db_path" = None →
            dict_lookup d "enabled_companies" = None →
            load profile_name = Ok defaults)
       ∧ (∀ d cfg, safe_load text = Ok (PDict d) →
            load profile_name = Ok cfg →
            name cfg = profile_name
            ∧ (dict_lookup d "db_path" = None →
               db_path cfg = "data/" +:+ profile_name +:+ ".sqlite")
            ∧ (dict_lookup d "enabled_companies" = None →
               enabled_companies cfg = []))
       ∧ (∀ v, safe_load text = Ok v → truthy v = true →
            (∀ d, v ≠ PDict d) →
            load profile_name = Raise AttributeError)).
Proof.
  intros load defaults. subst load defaults.
  unfold load_profile, profile_path, default_db_path.
  split; [by intros ->|]. split.
  - intros Hyaml. split; [|by intros ->].
    destruct (read_text _) as [text|]; [|done].
    intros Hload. exfalso.
    destruct (safe_load text) as [v|e] eqn:Hv; simpl in Hload;
      [|injection Hload as ->; by apply (Hyaml text)].
    destruct (as_dict (py_or v (PDict []))) as [data|e] eqn:Hd;
      simpl in Hload.
    + destruct (py_list _) as [companies|e] eqn:Hc; simpl in Hload; [done|].
      injection Hload as ->.
      by destruct (dict_get_or data "enabled_companies" (PList []))
        as [| | | | | | |? [?|] ?].
    + injection Hload as ->. by destruct (py_or v (PDict [])).
  - intros text ->. split; [|split; [|split; [|split]]].
    + by intros e ->.
    + intros v -> Hfalse. simpl. unfold py_or. by rewrite Hfalse.
    + intros d -> Hdb Hco. simpl. unfold py_or.
      destruct (truthy (PDict d)); simpl; [|done].
      unfold dict_get_or. by rewrite Hdb, Hco.
    + intros d cfg -> Hload. simpl in Hload. unfold py_or in Hload.
      destruct (truthy (PDict d)) eqn:Htrue; simpl in Hload.
      * destruct (py_list _) as [companies|e] eqn:Hc; simpl in Hload;
          [|done].
        injection Hload as <-. simpl. split; [done|]. split.
        -- intros Hdb. unfold dict_get_or. by rewrite Hdb.
        -- intros Hco. unfold dict_get_or in Hc. rewrite Hco in Hc.
           by injection Hc as <-.
      * injection Hload as <-. simpl. done.
    + intros v -> Htrue Hnot. simpl. unfold py_or. rewrite Htrue.
      destruct v; try done. by destruct (Hnot d).
Qed.

End ConfigFacts.

Section ConfigExamples.
Import Py Config.

(** C8, against the specification's sentence on malformed documents: the
    file of profile [yt] exists and holds a list left open; the YAML loader
    raises on it, and so does [load_profile], where the sentence has the
    configuration of all defaults. *)
Lemma load_profile_malformed_fails :
  disk_with "profiles/yt.yaml" broken_text "profiles/yt.yaml"
    = Some broken_text
  ∧ load_profile (disk_with "profiles/yt.yaml" broken_text)
      safe_load_examples no_repr "yt" = Raise YAMLError
  ∧ load_profile (disk_with "profiles/yt.yaml" broken_text)
      safe_load_examples no_repr "yt"
    ≠ Ok (mkProfileConfig "yt" "data/yt.sqlite" []).
Proof. by vm_compute. Qed.

Lemma load_profile_outcomes_witness :
  disk_with "profiles/yt.yaml" "" "profiles/yt.yaml" = Some ""
  ∧ safe_load_examples "" = Ok PNone
  ∧ truthy PNone = false
  ∧ load_profile (disk_with "profiles/yt.yaml" "") safe_load_examples
      no_repr "yt"
    = Ok (mkProfileConfig "yt" "data/yt.sqlite" []).
Proof.
  assert (Hfile : disk_with "profiles/yt.yaml" "" "profiles/yt.yaml" = Some "")
    by reflexivity.
  assert (Hload : safe_load_examples "" = Ok PNone) by reflexivity.
  assert (Hfalse : truthy PNone = false) by reflexivity.
  split; [exact Hfile|]. split; [exact Hload|]. split; [exact Hfalse|].
  destruct (load_profile_outcomes (disk_with "profiles/yt.yaml" "")
              safe_load_examples no_repr "yt") as (_ & _ & Hthere).
  destruct (Hthere "" Hfile) as (_ & Hempty & _).
  exact (Hempty PNone Hload Hfalse).
Defined.

End ConfigExamples.

(** * Properties of the dashboard's pagination *)
Section DashboardFacts.
Import Dashboard.

Lemma max_page_ceil (total page_size : Z) :
  (1 ≤ total)%Z → (0 < page_size)%Z →
  max_page total page_size = ((total - 1) / page_size + 1)%Z
  ∧ ((max_page total page_size - 1) * page_size < total)%Z
  ∧ (total ≤ max_page total page_size * page_size)%Z
  ∧ max_page total page_size = ceil_div total page_size.
Proof.
  intros Htotal Hsize. unfold max_page, ceil_div.
  pose proof (Z.div_pos (total - 1) page_size ltac:(lia) Hsize) as Hq.
  pose proof (Z.mul_div_le (total - 1) page_size Hsize) as Hlo.
  pose proof (Z.mul_succ_div_gt (total - 1) page_size Hsize) as Hhi.
  pose proof (Z.mul_div_le (- total) page_size Hsize) as Hlo'.
  pose proof (Z.mul_succ_div_gt (- total) page_size Hsize) as Hhi'.
  rewrite Z.max_r by lia.
  split; [done|]. split; [nia|]. split; [nia|]. nia.
Qed.

(** The slice of a page that starts inside the list. *)
Lemma py_slice_page {A} (rows : list A) (start size : Z) :
  (0 ≤ start < Z.of_nat (length rows))%Z → (0 < size)%Z →
  py_slice rows start (start + size)
  = take (Z.to_nat size) (drop (Z.to_nat start) rows).
Proof.
  intros Hstart Hsize. unfold py_slice.
  rewrite (proj2 (Z.ltb_ge start 0)) by lia.
  rewrite (proj2 (Z.ltb_ge (start + size) 0)) by lia.
  rewrite (Z.min_l start) by lia.
  destruct (Z.le_gt_cases (start + size) (Z.of_nat (length rows)))
    as [Hin|Hout].
  - rewrite Z.min_l by lia. f_equal. lia.
  - rewrite Z.min_r by lia. rewrite !take_ge; [done|..];
      rewrite length_drop; lia.
Qed.

(** C9. For a result set that is not empty and a positive page size, the
    number of pages is [max(1, ceil(total / page_size))], which is the
    least number of pages that hold all rows; the page shown is the page
    asked for, brought into [[1, max_page]]; its rows are the [page_size]
    rows (fewer on the last page) from position [(page - 1) * page_size].
    With 120 rows and 50 rows per page there are 3 pages, and asking for
    page 5 shows page 3: the rows from the 101st on, captioned 101 to 120. *)
Theorem browse_pagination {A} (rows : list A) (page_size requested : Z) :
  rows ≠ [] → (0 < page_size)%Z →
  let total := Z.of_nat (length rows) in
  ∃ v, browse rows page_size requested = Some v
    ∧ pages v = max_page total page_size
    ∧ pages v = Z.max 1 (ceil_div total page_size)
    ∧ ((pages v - 1) * page_size < total ≤ pages v * page_size)%Z
    ∧ (1 ≤ page v ≤ pages v)%Z
    ∧ page v = Z.max 1 (Z.min (pages v) requested)
    ∧ ((1 ≤ requested ≤ pages v)%Z → page v = requested)
    ∧ ((pages v < requested)%Z → page v = pages v)
    ∧ ((requested < 1)%Z → page v = 1%Z)
    ∧ page_rows v
      = take (Z.to_nat page_size)
             (drop (Z.to_nat ((page v - 1) * page_size)) rows)
    ∧ caption_first v = ((page v - 1) * page_size + 1)%Z
    ∧ caption_last v = Z.min (page v * page_size) total
    ∧ caption_total v = total
    ∧ (length rows = 120 → page_size = 50%Z →
       pages v = 3%Z
       ∧ (requested = 5%Z →
          page v = 3%Z ∧ page_rows v = drop 100 rows
          ∧ length (page_rows v) = 20
          ∧ caption_first v = 101%Z ∧ caption_last v = 120%Z)).
Proof.
  intros Hrows Hsize total.
  assert (Htotal : (1 ≤ total)%Z).
  { subst total. destruct rows; [done|]. simpl. lia. }
  destruct (max_page_ceil total page_size Htotal Hsize)
    as (Hmax & Hlow & Hhigh & Hceil).
  set (m := max_page total page_size) in *.
  assert (Hm : (1 ≤ m)%Z) by (subst m; unfold max_page; lia).
  set (pg := number_input 1 m requested).
  assert (Hpg : (1 ≤ pg ≤ m)%Z) by (subst pg; unfold number_input; lia).
  assert (Hslice : py_slice rows ((pg - 1) * page_size)
                     ((pg - 1) * page_size + page_size)
                   = take (Z.to_nat page_size)
                       (drop (Z.to_nat ((pg - 1) * page_size)) rows)).
  { apply py_slice_page; [|done]. fold total. nia. }
  exists (mkView pg m (py_slice rows ((pg - 1) * page_size)
                         ((pg - 1) * page_size + page_size))
                 ((pg - 1) * page_size + 1)
                 (Z.min ((pg - 1) * page_size + page_size) total) total).
  split.
  { unfold browse. destruct rows; [done|]. reflexivity. }
  simpl. split; [done|]. split; [lia|]. split; [lia|]. split; [done|].
  split; [done|]. split; [subst pg; unfold number_input; lia|].
  split; [subst pg; unfold number_input; lia|].
  split; [subst pg; unfold number_input; lia|].
  split; [done|]. split; [done|]. split; [f_equal; lia|]. split; [done|].
  intros Hlen ->.
  assert (Htot : total = 120%Z) by (subst total; lia).
  assert (Hm3 : m = 3%Z) by (rewrite Hmax, Htot; reflexivity).
  split; [done|]. intros ->.
  assert (Hpg3 : pg = 3%Z) by (subst pg; rewrite Hm3; reflexivity).
  rewrite Hslice, Hpg3, Htot.
  replace (Z.to_nat ((3 - 1) * 50)) with 100 by lia.
  replace (Z.to_nat 50) with 50 by lia.
  rewrite take_ge by (rewrite length_drop; lia).
  split; [done|]. split; [done|]. split; [rewrite length_drop; lia|done].
Qed.

End DashboardFacts.

Section DashboardExamples.
Import Dashboard.

Lemma browse_pagination_witness :
  seq 1 120 ≠ [] ∧ (0 < 50)%Z
  ∧ length (seq 1 120) = 120
  ∧ ∃ v, browse (seq 1 120) 50 5 = Some v
      ∧ pages v = 3%Z ∧ page v = 3%Z
      ∧ page_rows v = seq 101 20
      ∧ caption_first v = 101%Z ∧ caption_last v = 120%Z.
Proof.
  assert (Hrows : seq 1 120 ≠ []) by discriminate.
  assert (Hsize : (0 < 50)%Z) by lia.
  assert (Hlen : length (seq 1 120) = 120) by reflexivity.
  split; [exact Hrows|]. split; [exact Hsize|]. split; [exact Hlen|].
  destruct (browse_pagination (seq 1 120) 50 5 Hrows Hsize)
    as (v & Hv & _ & _ & _ & _ & _ & _ & _ & _ & _ & _ & _ & _ & Hscenario).
  destruct (Hscenario Hlen eq_refl) as (Hpages & Hfive).
  destruct (Hfive eq_refl) as (Hpage & Hshown & _ & Hfirst & Hlast).
  exists v. repeat split; try done.
Defined.

End DashboardExamples.

(** * More on the storage layer: what an upsert keeps *)
Section StorageHistory.
Import Storage.

Lemma upsert_fold_row today js : ∀ (tbl : gmap string job_row) k r',
  foldl (upsert_row today) tbl js !! k = Some r' →
  (∀ r, tbl !! k = Some r →
     first_seen r' = first_seen r ∧ row_company r' = row_company r)
  ∧ (k ∈ job_id <$> js → last_seen r' = today).
Proof.
  induction js as [|j js IH]; intros tbl k r' Hr'; simpl in *.
  { split; [|by intros ?%elem_of_nil]. intros r Hr. by simplify_eq. }
  destruct (IH _ _ _ Hr') as [Hkeep Hlast].
  destruct (decide (job_id j = k)) as [<-|Hne].
  - rewrite upsert_row_self in Hkeep. split.
    + intros r Hr. rewrite Hr in Hkeep.
      by destruct (Hkeep _ eq_refl) as [-> ->].
    + intros _. destruct (decide (job_id j ∈ job_id <$> js)) as [Hin|Hnin];
        [by apply Hlast|].
      rewrite upsert_fold_other in Hr'.
      * rewrite upsert_row_self in Hr'. injection Hr' as <-.
        by destruct (tbl !! job_id j).
      * apply Forall_forall. intros j' Hj' Heq. apply Hnin.
        rewrite <- Heq. by apply list_elem_of_fmap_2.
  - rewrite upsert_row_other in Hkeep by done. split; [done|].
    intros [?|Hin]%elem_of_cons; [congruence|by apply Hlast].
Qed.

(** X1. An upsert never removes a row: after a batch, a [job_id] has a row
    exactly when it had one before or the batch names it; the rows of ids
    the batch does not name are the ones they were; the runs are not
    touched. *)
Theorem upsert_jobs_keeps_rows today (c : conn) (js : list JobLike) k :
  (is_Some (jobs (upsert_jobs today c js) !! k)
   ↔ is_Some (jobs c !! k) ∨ k ∈ job_id <$> js)
  ∧ (k ∉ job_id <$> js → jobs (upsert_jobs today c js) !! k = jobs c !! k)
  ∧ runs (upsert_jobs today c js) = runs c.
Proof.
  unfold upsert_jobs. simpl. split; [|split; [|done]].
  - split.
    + intros [r Hr]. by destruct (upsert_fold_first_seen _ _ _ _ _ Hr).
    + apply upsert_fold_present.
  - intros Hnin. apply upsert_fold_other, Forall_forall.
    intros j Hj Heq. apply Hnin. rewrite <- Heq.
    by apply list_elem_of_fmap_2.
Qed.

(** X2. Whatever the batch, the row a [job_id] ends with keeps the
    [first_seen] and the [company] of the row it had before; [first_seen]
    is today only for an id that had no row; and every id the batch names has
    [last_seen] today. *)
Theorem upsert_jobs_history today (c : conn) (js : list JobLike) k r' :
  jobs (upsert_jobs today c js) !! k = Some r' →
  (∀ r, jobs c !! k = Some r →
     first_seen r' = first_seen r ∧ row_company r' = row_company r)
  ∧ (jobs c !! k = None → first_seen r' = today ∧ k ∈ job_id <$> js)
  ∧ (k ∈ job_id <$> js → last_seen r' = today).
Proof.
  unfold upsert_jobs. simpl. intros Hr'.
  destruct (upsert_fold_row _ _ _ _ _ Hr') as [Hkeep Hlast].
  destruct (upsert_fold_first_seen _ _ _ _ _ Hr') as [Hfirst Hin].
  split; [done|]. split; [|done].
  intros Hnone. rewrite Hnone in Hfirst, Hin. split; [done|].
  destruct Hin as [[? ?]|?]; done.
Qed.

Lemma upsert_jobs_history_witness :
  jobs (upsert_jobs day2 sample_db [sample_job None; other_job])
    !! "COMSOL:12345"
  = Some (mkJobRow "COMSOL" "Applications Engineer"
            "https://www.comsol.com/company/careers/job/12345/"
            (Some "Burlington, MA") day1 day2)
  ∧ ∀ r, jobs sample_db !! "COMSOL:12345" = Some r →
      day1 = first_seen r ∧ "COMSOL" = row_company r.
Proof.
  assert (Hrow :
    jobs (upsert_jobs day2 sample_db [sample_job None; other_job])
      !! "COMSOL:12345"
    = Some (mkJobRow "COMSOL" "Applications Engineer"
              "https://www.comsol.com/company/careers/job/12345/"
              (Some "Burlington, MA") day1 day2)) by reflexivity.
  split; [exact Hrow|].
  exact (proj1 (upsert_jobs_history day2 sample_db _ _ _ Hrow)).
Defined.

End StorageHistory.

(** * More on the storage layer: a batch upserted again *)
Section UpsertAgain.
Import Storage UpsertSteps.

(** A fold of steps each of which is the identity or a constant is the
    identity or a constant, so doing it twice is doing it once. *)
Lemma fold_id_or_const {X A} (f : X → A → X) (l : list A) :
  (∀ a, (∀ x, f x a = x) ∨ (∃ v, ∀ x, f x a = v)) →
  (∀ x, foldl f x l = x) ∨ (∃ v, ∀ x, foldl f x l = v).
Proof.
  intros Hf. induction l as [|a l IH]; simpl; [by left|].
  destruct IH as [Hid|[v Hv]]; [|right; exists v; by intros x].
  destruct (Hf a) as [Ha|[v Ha]].
  - left. intros x. by rewrite Hid, Ha.
  - right. exists v. intros x. by rewrite Hid, Ha.
Qed.

Lemma fold_twice {X A} (f : X → A → X) (l : list A) x :
  (∀ a, (∀ x, f x a = x) ∨ (∃ v, ∀ x, f x a = v)) →
  foldl f (foldl f x l) l = foldl f x l.
Proof.
  intros Hf. destruct (fold_id_or_const f l Hf) as [Hid|[v Hv]].
  - by rewrite !Hid.
  - by rewrite !Hv.
Qed.

Lemma upsert_fold_key today k js : ∀ tbl : gmap string job_row,
  foldl (upsert_row today) tbl js !! k = foldl (step_key today k) (tbl !! k) js.
Proof.
  induction js as [|j js IH]; intros tbl; simpl; [done|].
  rewrite IH. f_equal. unfold step_key. case_decide as Hk.
  - subst k. rewrite upsert_row_self. by destruct (tbl !! job_id j).
  - by apply upsert_row_other.
Qed.

Lemma step_key_match today k o j :
  job_id j = k →
  step_key today k o j
  = Some match o with
         | Some r => update_row today r j
         | None => insert_row today j
         end.
Proof. intros Hk. unfold step_key. by rewrite decide_True. Qed.

Lemma step_key_other today k o j :
  job_id j ≠ k → step_key today k o j = o.
Proof. intros Hk. unfold step_key. by rewrite decide_False. Qed.

Lemma step_key_some today k js : ∀ r,
  foldl (step_key today k) (Some r) js = Some (foldl (step_row today k) r js).
Proof.
  induction js as [|j js IH]; intros r; simpl; [done|].
  unfold step_row at 2. destruct (decide (job_id j = k)) as [Hk|Hk].
  - rewrite step_key_match by done. apply IH.
  - rewrite step_key_other by done. apply IH.
Qed.

Lemma step_key_none today k js :
  foldl (step_key today k) None js = None
  ∨ ∃ j, foldl (step_key today k) None js
         = foldl (step_key today k) (Some (seed_row today j)) js.
Proof.
  induction js as [|j js IH]; simpl; [by left|].
  destruct (decide (job_id j = k)) as [Hk|Hk].
  - right. exists j. rewrite !step_key_match by done.
    unfold update_row, insert_row, seed_row. simpl.
    by destruct (location j).
  - rewrite step_key_other by done.
    destruct IH as [IH|[j' IH]]; [by left|]. right. exists j'.
    by rewrite step_key_other by done.
Qed.

Lemma step_rows today k js : ∀ r,
  foldl (step_row today k) r js =
  mkJobRow
    (row_company r)
    (foldl (λ x j, if decide (job_id j = k) then title j else x)
           (row_title r) js)
    (foldl (λ x j, if decide (job_id j = k) then url j else x)
           (row_url r) js)
    (foldl (λ x j, if decide (job_id j = k) then coalesce (location j) x
                   else x) (row_location r) js)
    (first_seen r)
    (foldl (λ x (j : JobLike), if decide (job_id j = k) then today else x)
           (last_seen r) js).
Proof.
  induction js as [|j js IH]; intros r; simpl; [by destruct r|].
  rewrite IH. unfold step_row. by case_decide.
Qed.

Lemma step_row_twice today k js r :
  foldl (step_row today k) (foldl (step_row today k) r js) js
  = foldl (step_row today k) r js.
Proof.
  rewrite (step_rows today k js (foldl _ r js)), (step_rows today k js r).
  simpl. f_equal; apply fold_twice; intros j; case_decide; eauto.
  destruct (location j); simpl; eauto.
Qed.

Lemma upsert_fold_again today js (tbl : gmap string job_row) :
  foldl (upsert_row today) (foldl (upsert_row today) tbl js) js
  = foldl (upsert_row today) tbl js.
Proof.
  apply map_eq. intros k. rewrite !upsert_fold_key.
  destruct (tbl !! k) as [r|].
  - by rewrite !step_key_some, step_row_twice.
  - destruct (step_key_none today k js) as [Hnone|[j Hj]].
    + by rewrite !Hnone.
    + by rewrite !Hj, !step_key_some, step_row_twice.
Qed.

(** X3. Upserting a batch a second time on the same day changes nothing,
    whatever the batch: also one that names a [job_id] several times with
    different titles or locations. *)
Theorem upsert_jobs_again today (c : conn) (js : list JobLike) :
  upsert_jobs today (upsert_jobs today c js) js = upsert_jobs today c js.
Proof. unfold upsert_jobs. simpl. by rewrite upsert_fold_again. Qed.

End UpsertAgain.

(** * More on the storage layer: run records *)
Section RunRecords.
Import Storage Queries.

#[local] Instance run_order_total : Total run_date_desc.
Proof.
  intros a b. unfold run_date_desc.
  destruct (total String.le a.1.1.1 b.1.1.1); auto.
Qed.

#[local] Instance run_order_trans : Transitive run_date_desc.
Proof.
  intros a b d Hab Hbd. unfold run_date_desc in *.
  by apply (transitivity (R := String.le)) with b.1.1.1.
Qed.

(** [get_last_run] is the run of the company that no run of it is later
    than. *)
Lemma get_last_run_max (c : conn) co t :
  get_last_run c co = Some t ↔
  t ∈ run_tuples c co
  ∧ ∀ t', t' ∈ run_tuples c co → String.le t'.1.1.1 t.1.1.1.
Proof.
  unfold get_last_run.
  assert (Hperm : ∀ x, x ∈ merge_sort run_date_desc (run_tuples c co)
                       ↔ x ∈ run_tuples c co).
  { intros x. by rewrite (merge_sort_Permutation run_date_desc). }
  pose proof (StronglySorted_merge_sort run_date_desc (run_tuples c co))
    as Hsorted.
  destruct (merge_sort run_date_desc (run_tuples c co)) as [|h l]; simpl.
  { split; [done|]. intros [Hin _]. apply Hperm in Hin.
    by apply elem_of_nil in Hin. }
  apply StronglySorted_cons in Hsorted as [Hall _].
  rewrite Forall_forall in Hall.
  assert (Hmax : ∀ t', t' ∈ run_tuples c co → String.le t'.1.1.1 h.1.1.1).
  { intros t' [->|Hin]%Hperm%elem_of_cons; [done|by apply Hall]. }
  assert (Hh : h ∈ run_tuples c co) by (apply Hperm; by left).
  split.
  - intros [= <-]. done.
  - intros [Hin Hle]. f_equal.
    assert (Hdate : h.1.1.1 = t.1.1.1).
    { apply (anti_symm String.le); [by apply Hle|by apply Hmax]. }
    apply run_tuples_elem in Hin as (d & r & Hr & ->).
    apply run_tuples_elem in Hh as (d' & r' & Hr' & ->).
    simpl in Hdate. subst d'. congruence.
Qed.

Lemma run_tuples_record_run today now (c : conn) co total new co' t :
  t ∈ run_tuples (record_run today now c co total new) co' ↔
  (co' = co ∧ t = (today, now, total, new))
  ∨ (t ∈ run_tuples c co' ∧ ¬ (co' = co ∧ t.1.1.1 = today)).
Proof.
  rewrite !run_tuples_elem. unfold record_run. simpl. split.
  - intros (d & r & Hr & ->).
    destruct (decide ((today, co) = (d, co'))) as [[= <- <-]|Hne].
    + rewrite lookup_insert_eq in Hr. injection Hr as <-. by left.
    + rewrite lookup_insert_ne in Hr by done. right. split; [by eauto|].
      simpl. intros [-> ->]. done.
  - intros [[-> ->]|[(d & r & Hr & ->) Hne]].
    + exists today, (mkRunRow now total new). by rewrite lookup_insert_eq.
    + exists d, r. split; [|done]. rewrite lookup_insert_ne; [done|].
      intros [= <- <-]. by apply Hne.
Qed.

Lemma last_run_after_record today now (c : conn) co total new :
  (∀ d, is_Some (runs c !! (d, co)) → String.le d today) →
  get_last_run (record_run today now c co total new) co
  = Some (today, now, total, new).
Proof.
  intros Hlatest. apply get_last_run_max. split.
  - apply run_tuples_record_run. by left.
  - intros t' [[_ ->]|[Hin _]]%run_tuples_record_run; [done|].
    apply run_tuples_elem in Hin as (d & r & Hr & ->). simpl.
    apply Hlatest. eauto.
Qed.

(** X4. A run recorded on a day that no recorded run of the company is
    later than is the company's last run: [get_last_run] returns the date,
    the time and the two counts just written. *)
Theorem record_run_then_last_run today now (c : conn) co total new :
  (∀ d, is_Some (runs c !! (d, co)) → String.le d today) →
  get_last_run (record_run today now c co total new) co
  = Some (today, now, total, new).
Proof. apply last_run_after_record. Qed.

Lemma record_run_then_last_run_witness :
  (∀ d, is_Some (runs sample_runs !! (d, "Netflix")) → String.le d "2024-05-03")
  ∧ get_last_run
      (record_run "2024-05-03" "2024-05-03T08:30:00" sample_runs "Netflix"
         30 3) "Netflix"
    = Some ("2024-05-03", "2024-05-03T08:30:00", 30%Z, 3%Z).
Proof.
  assert (Hlatest : ∀ d, is_Some (runs sample_runs !! (d, "Netflix"))
                         → String.le d "2024-05-03").
  { intros d [r Hr].
    assert (Hin : (d, ran_at r, total_jobs r, new_jobs r)
                    ∈ run_tuples sample_runs "Netflix")
      by (apply run_tuples_elem; eauto).
    vm_compute run_tuples in Hin.
    repeat (apply elem_of_cons in Hin as [[= -> _ _ _]|Hin]; [done|]).
    by apply elem_of_nil in Hin. }
  split; [exact Hlatest|].
  exact (record_run_then_last_run _ _ _ _ _ _ Hlatest).
Defined.

(** X5. Recording a run of one company leaves the jobs alone, and the last
    run of every other company what it was. *)
Theorem record_run_other_company today now (c : conn) co total new co' :
  co' ≠ co →
  get_last_run (record_run today now c co total new) co' = get_last_run c co'
  ∧ jobs (record_run today now c co total new) = jobs c.
Proof.
  intros Hne. split; [|done].
  assert (Hsame : ∀ t, t ∈ run_tuples (record_run today now c co total new) co'
                       ↔ t ∈ run_tuples c co').
  { intros t. rewrite run_tuples_record_run. split.
    - intros [[? _]|[? _]]; done.
    - intros Hin. right. split; [done|]. by intros [? _]. }
  assert (Hiff : ∀ t, get_last_run (record_run today now c co total new) co'
                        = Some t ↔ get_last_run c co' = Some t).
  { intros t. rewrite !get_last_run_max, Hsame.
    split; intros [Hin Hmax]; (split; [done|]); intros t' Ht';
      apply Hmax; by apply Hsame. }
  destruct (get_last_run c co') as [t|] eqn:Hold.
  - by apply Hiff.
  - destruct (get_last_run (record_run _ _ _ _ _ _) co') as [t|] eqn:Hnew;
      [|done].
    by pose proof (proj1 (Hiff t) eq_refl).
Qed.

Lemma record_run_other_company_witness :
  "Amazon" ≠ "Netflix"
  ∧ get_last_run
      (record_run "2024-05-03" "2024-05-03T08:30:00" sample_runs "Netflix"
         30 3) "Amazon"
    = get_last_run sample_runs "Amazon".
Proof.
  assert (Hne : "Amazon" ≠ "Netflix") by discriminate.
  split; [exact Hne|].
  exact (proj1 (record_run_other_company _ _ _ _ _ _ _ Hne)).
Defined.

(** ** One company's update *)

Lemma get_new_today_jobs today (c1 c2 : conn) co :
  jobs c1 = jobs c2 → get_new_today today c1 co = get_new_today today c2 co.
Proof.
  intros Hjobs. unfold get_new_today, new_today_tuples. by rewrite Hjobs.
Qed.

(** X9. Pressing "Run update now" again on the same day, the connector
    returning the same postings: the jobs stay as the first run left them,
    the count of new postings is the same again (the postings first seen
    today are still new today), and the run record of the day holds the
    second run's time with the same two counts; when no recorded run of the
    company is dated later, that record is what [get_last_run] shows. *)
Theorem update_company_again today now1 now2 (c : conn) co scraped :
  let first := update_company today now1 c co scraped in
  let second := update_company today now2 first.1 co scraped in
  jobs second.1 = jobs first.1
  ∧ jobs first.1 = jobs (upsert_jobs today c scraped)
  ∧ second.2 = first.2
  ∧ runs second.1 !! (today, co)
    = Some (mkRunRow now2 (Z.of_nat (length scraped)) (Z.of_nat first.2))
  ∧ ((∀ d, is_Some (runs c !! (d, co)) → String.le d today) →
     get_last_run second.1 co
     = Some (today, now2, Z.of_nat (length scraped), Z.of_nat first.2)).
Proof.
  intros first second. subst first second. unfold update_company. simpl.
  assert (Hjobs : foldl (upsert_row today)
                    (foldl (upsert_row today) (jobs c) scraped) scraped
                  = foldl (upsert_row today) (jobs c) scraped)
    by apply upsert_fold_again.
  assert (Hnew : get_new_today today
                   (upsert_jobs today
                      (record_run today now1 (upsert_jobs today c scraped) co
                         (Z.of_nat (length scraped))
                         (Z.of_nat (length (get_new_today today
                            (upsert_jobs today c scraped) co)))) scraped) co
                 = get_new_today today (upsert_jobs today c scraped) co).
  { apply get_new_today_jobs. simpl. exact Hjobs. }
  split; [exact Hjobs|]. split; [done|]. split; [by rewrite Hnew|].
  split; [by rewrite lookup_insert_eq, Hnew|].
  intros Hlatest. rewrite Hnew.
  apply last_run_after_record. simpl. intros d [r Hr].
  destruct (decide ((today, co) = (d, co))) as [[= <-]|Hne]; [done|].
  rewrite lookup_insert_ne in Hr by done. apply Hlatest. eauto.
Qed.

End RunRecords.

(** * The listing queries *)
Section Listings.
Import Storage Queries.

#[local] Instance recent_first_total : Total recent_first.
Proof.
  intros a b. unfold recent_first.
  destruct (decide (a.2 = b.2)) as [Heq|Hne].
  - rewrite decide_True by done. apply (total String.le).
  - rewrite decide_False by done. destruct (total String.le a.2 b.2); auto.
Qed.

#[local] Instance recent_first_trans : Transitive recent_first.
Proof.
  intros a b d. unfold recent_first.
  destruct (decide (a.2 = b.2)) as [Hab|Hab],
           (decide (b.2 = d.2)) as [Hbd|Hbd]; intros H1 H2.
  - rewrite decide_True by congruence.
    by apply (transitivity (R := String.le)) with b.1.1.1.1.
  - rewrite decide_False by congruence. by rewrite Hab.
  - rewrite decide_False by congruence. by rewrite <- Hbd.
  - assert (Hle : String.le d.2 a.2)
      by (by apply (transitivity (R := String.le)) with b.2).
    rewrite decide_False; [done|]. intros Had. apply Hab.
    apply (anti_symm String.le); [by rewrite Had|done].
Qed.






(** ** The title pattern *)

Lemma like_percent_cons p t :
  like (String "%" p) t
  = like p t || match t with
                | EmptyString => false
                | String _ t' => like (String "%" p) t'
                end.
Proof. by destruct t. Qed.

Lemma like_percent t : like "%" t = true.
Proof.
  induction t as [|a t IH]; [done|].
  rewrite like_percent_cons, IH. apply orb_true_r.
Qed.





(** X8. A search whose query is blank returns what [list_recent] returns
    for the same company, location and limit. *)
Theorem search_blank_is_list_recent (c : conn) company query location limit :
  Py.strip query = "" →
  search_jobs c company query location limit
  = list_recent c company location limit.
Proof.
  intros Hblank. unfold search_jobs, list_recent, listing_query.
  rewrite Hblank. do 3 f_equal. apply list_filter_iff. intros r.
  unfold listing_where.
  change ("%" +:+ "" +:+ "%") with (String "%" "%").
  by rewrite like_percent_cons, like_percent.
Qed.

Lemma search_blank_is_list_recent_witness :
  Py.strip "   " = ""
  ∧ search_jobs sample_db None "   " None 500
    = list_recent sample_db None None 500.
Proof.
  assert (Hblank : Py.strip "   " = "") by reflexivity.
  split; [exact Hblank|].
  exact (search_blank_is_list_recent sample_db None "   " None 500 Hblank).
Defined.

End Listings.

(** * The locations offered for filtering *)
Section Locations.
Import Storage Queries.

(** X10. On a table created by [init_db], [list_locations] returns, in
    ascending order and each once, exactly the locations stored in rows of
    the company asked for (of all rows when none is) that are not NULL and
    not made of spaces only; on a table without a [location] column it
    returns nothing. *)
Theorem list_locations_exact (cols : list string) (c : conn) company :
  ("location" ∉ cols → list_locations cols c company = [])
  ∧ ("location" ∈ cols →
     Sorted String.le (list_locations cols c company)
     ∧ NoDup (list_locations cols c company)
     ∧ ∀ l, l ∈ list_locations cols c company ↔
         ∃ k r, jobs c !! k = Some r ∧ row_location r = Some l
                ∧ sql_trim l ≠ ""
                ∧ (∀ co, company = Some co → co ≠ "" → row_company r = co))
  ∧ "location" ∈ jobs_columns.
Proof.
  unfold list_locations. split; [|split].
  - intros Hno. by rewrite bool_decide_eq_false_2.
  - intros Hcol. rewrite bool_decide_eq_true_2 by done.
    split; [apply (Sorted_merge_sort String.le)|]. split.
    + rewrite (merge_sort_Permutation String.le). apply NoDup_remove_dups.
    + intros l. rewrite (merge_sort_Permutation String.le).
      rewrite elem_of_remove_dups, list_elem_of_omap. split.
      * intros (r & [[k r'] [-> Hin]]%list_elem_of_fmap & Hsel).
        apply elem_of_map_to_list in Hin. simpl in Hsel.
        destruct (row_location r') as [l'|] eqn:Hloc; [|done].
        case_bool_decide as Htrim; [done|].
        exists k, r'. unfold company_given in Hsel.
        destruct company as [co|].
        -- case_bool_decide as Hco.
           ++ injection Hsel as <-. repeat split; try done.
              intros co' [= <-]. done.
           ++ case_bool_decide; [|done]. injection Hsel as <-.
              repeat split; try done. by intros co' [= <-].
        -- injection Hsel as <-. by repeat split.
      * intros (k & r & Hr & Hloc & Htrim & Hco). exists r. split.
        -- apply list_elem_of_fmap. exists (k, r). split; [done|].
           by apply elem_of_map_to_list.
        -- rewrite Hloc, bool_decide_eq_false_2 by done.
           unfold company_given. destruct company as [co|]; [|done].
           case_bool_decide; [done|].
           by rewrite bool_decide_eq_true_2 by (by apply Hco).
  - unfold jobs_columns. set_solver.
Qed.

Lemma list_locations_exact_witness :
  "location" ∈ jobs_columns
  ∧ list_locations jobs_columns
      (upsert_jobs day2 sample_db [other_job; sample_job (Some "  ")])
      (Some "COMSOL")
    = ["Cambridge, GB"]
  ∧ NoDup (list_locations jobs_columns
             (upsert_jobs day2 sample_db [other_job; sample_job (Some "  ")])
             (Some "COMSOL")).
Proof.
  assert (Hcol : "location" ∈ jobs_columns) by (by vm_compute; set_solver).
  split; [exact Hcol|]. split; [by vm_compute|].
  destruct (list_locations_exact jobs_columns
              (upsert_jobs day2 sample_db [other_job; sample_job (Some "  ")])
              (Some "COMSOL")) as (_ & Hthere & _).
  exact (proj1 (proj2 (Hthere Hcol))).
Defined.

End Locations.

(** * More on the Netflix connector *)
Section NetflixMore.
Import Py Netflix.
Context (repr_other : pyval → string) (str : str_methods).

Lemma fetch_loop_page_cap {St : Type}
    (get_jobs_page : St → Z → nat → result pyval * St)
    page_size m fuel : ∀ api s,
  (Z.of_nat (length (fetch_loop repr_other str get_jobs_page page_size (Some m)
                       fuel api s).2)
   ≤ Z.max 0 (m - Z.of_nat (page s)))%Z.
Proof.
  induction fuel as [|fuel IH]; intros api s;
    remember (Z.max 0 (m - Z.of_nat (page s))) as bound eqn:Hbound;
    simpl; [lia|].
  case_bool_decide as Hmax; [simpl; lia|].
  destruct (get_jobs_page api page_size (start s)) as [resp api'].
  destruct (resp ≫= as_dict) as [data|e]; [|simpl; lia].
  destruct (next_total str s data) as [total'|e]; [|simpl; lia].
  destruct (extract_raw_jobs data) as [|raw raws] eqn:Hraw; [simpl; lia|].
  case_bool_decide; [simpl; lia|].
  destruct (parse_page _ _ _ _) as [[seen' postings']|e]; [|simpl; lia].
  destruct (reached_total _ _); [simpl; lia|].
  specialize (IH api' (next_state repr_other s data total' seen' postings')).
  destruct (fetch_loop _ _ _ _ _ _ _ _) as [o tr].
  unfold next_state in IH. cbn [page snd length] in IH |- *. lia.
Qed.

(** X11. [max_pages] caps the page requests of a fetch: never more than
    [max_pages] of them are made, and none at all when it is zero or
    negative, in which case the fetch returns no job. *)
Theorem fetch_jobs_page_cap {St : Type}
    (get_jobs_page : St → Z → nat → result pyval * St)
    page_size m fuel keywords location_contains api :
  let r := fetch_jobs repr_other str get_jobs_page page_size (Some m) fuel
             keywords location_contains api in
  (Z.of_nat (length r.2) ≤ Z.max 0 m)%Z
  ∧ ((m ≤ 0)%Z → 0 < fuel → r = (Stopped ReachedMaxPages [], [])).
Proof.
  intros r. subst r. split.
  - rewrite fetch_jobs_trace.
    pose proof (fetch_loop_page_cap get_jobs_page page_size m fuel api
                  initial_state) as Hcap.
    simpl in Hcap. lia.
  - intros Hm Hfuel. destruct fuel as [|fuel]; [lia|].
    unfold fetch_jobs. simpl. unfold at_max_pages.
    rewrite bool_decide_eq_true_2 by (simpl; lia).
    unfold client_filters.
    destruct keywords as [[|k ks]|]; simpl;
      destruct location_contains as [[|t ts]|]; simpl; try done;
      try (destruct (clean_terms str (t :: ts)); done);
      destruct (clean_terms str (k :: ks)); simpl; try done;
      by destruct (clean_terms str (t :: ts)).
Qed.

(** ** The client-side filters *)

Lemma clean_terms_elem terms k :
  k ∈ clean_terms str terms ↔
  ∃ t, t ∈ terms ∧ strip t ≠ "" ∧ k = str_lower str (strip t).
Proof.
  unfold clean_terms. rewrite list_elem_of_fmap. split.
  - intros (t & -> & [[_ Hne] Hin]%list_elem_of_filter). by exists t.
  - intros (t & Hin & Hne & ->). exists t. split; [done|].
    apply list_elem_of_filter. split; [|done]. split; [|done].
    intros ->. by apply Hne.
Qed.

Lemma clean_terms_blank terms :
  Forall (λ t, strip t = "") terms → clean_terms str terms = [].
Proof.
  intros Hblank. destruct (clean_terms str terms) as [|k ks] eqn:Hclean; [done|].
  assert (Hk : k ∈ clean_terms str terms) by (rewrite Hclean; by left).
  apply clean_terms_elem in Hk as (t & Hin & Hne & _).
  rewrite Forall_forall in Hblank. by destruct (Hne (Hblank t Hin)).
Qed.

(** X12. A filter that holds no term but blank ones is no filter:
    [keywords] and [location_contains] made of empty or whitespace strings
    (or absent, or empty) leave the fetched postings as they are. *)
Theorem client_filters_blank keywords location_contains postings :
  (∀ ks, keywords = Some ks → Forall (λ t, strip t = "") ks) →
  (∀ ts, location_contains = Some ts → Forall (λ t, strip t = "") ts) →
  client_filters str keywords location_contains postings = Ok postings.
Proof.
  intros Hkw Hloc. unfold client_filters.
  assert (Hk : match keywords with
               | None | Some [] => Ok postings
               | Some ks =>
                   match clean_terms str ks with
                   | [] => Ok postings
                   | kw => filter_keywords str kw postings
                   end
               end = Ok postings).
  { destruct keywords as [[|k ks]|]; try done.
    by rewrite (clean_terms_blank (k :: ks)) by (by apply Hkw). }
  rewrite Hk. simpl.
  destruct location_contains as [[|t ts]|]; try done.
  by rewrite (clean_terms_blank (t :: ts)) by (by apply Hloc).
Qed.

Lemma existsb_fmap {A B} (f : B → bool) (g : A → B) (l : list A) :
  existsb f (g <$> l) = existsb (λ a, f (g a)) l.
Proof.
  induction l as [|a l IH]; [done|].
  rewrite fmap_cons. cbn [existsb]. by rewrite IH.
Qed.

Lemma clean_terms_filter terms :
  clean_terms str terms
  = (λ t, str_lower str (strip t)) <$> filter (λ t, strip t ≠ "") terms.
Proof.
  unfold clean_terms. f_equal. apply list_filter_iff. intros t.
  split; [by intros [_ ?]|]. intros Hne. split; [|done]. by intros ->.
Qed.

(** X13. With terms that are not all blank, [location_contains] keeps, in
    their order and each as often as it is there, exactly the postings whose
    location, in lower case, contains one of the terms trimmed and in lower
    case; lower case is that of [str.lower], white space that of
    [str.strip]. *)
Theorem location_filter_exact terms postings :
  ¬ Forall (λ t, strip t = "") terms →
  let hit (j : Job) :=
    existsb (λ t, contains (str_lower str (strip t))
                           (str_lower str (location j)))
            (filter (λ t, strip t ≠ "") terms) in
  client_filters str None (Some terms) postings
    = Ok (filter (λ j, hit j = true) postings)
  ∧ (∀ j, hit j = true ↔
       ∃ t, t ∈ terms ∧ strip t ≠ ""
            ∧ contains (str_lower str (strip t))
                       (str_lower str (location j)) = true)
  ∧ ∃ jobs, client_filters str None (Some terms) postings = Ok jobs
      ∧ sublist jobs postings
      ∧ ∀ j, j ∈ jobs ↔
          j ∈ postings
          ∧ ∃ t, t ∈ terms ∧ strip t ≠ ""
                 ∧ contains (str_lower str (strip t))
                            (str_lower str (location j)) = true.
Proof.
  intros Hterms hit.
  assert (Hclean : clean_terms str terms ≠ []).
  { intros Hnil. apply Hterms, Forall_forall. intros t Hin.
    destruct (decide (strip t = "")) as [|Hne]; [done|].
    assert (Hk : str_lower str (strip t) ∈ clean_terms str terms)
      by (apply clean_terms_elem; eauto).
    rewrite Hnil in Hk. by apply elem_of_nil in Hk. }
  assert (Hrun : client_filters str None (Some terms) postings
                 = Ok (filter_location str (clean_terms str terms) postings)).
  { unfold client_filters. simpl. destruct terms as [|t ts]; [done|].
    by destruct (clean_terms str (t :: ts)). }
  assert (Hfilter : filter_location str (clean_terms str terms) postings
                    = filter (λ j, hit j = true) postings).
  { unfold filter_location. apply list_filter_iff. intros j. subst hit.
    cbv beta. by rewrite clean_terms_filter, existsb_fmap. }
  assert (Hhit : ∀ j, hit j = true ↔
       ∃ t, t ∈ terms ∧ strip t ≠ ""
            ∧ contains (str_lower str (strip t))
                       (str_lower str (location j)) = true).
  { intros j. subst hit. cbv beta. rewrite existsb_exists. split.
    - intros (t & [Hne Ht]%list_elem_of_In%list_elem_of_filter & Hc).
      by exists t.
    - intros (t & Ht & Hne & Hc). exists t. split; [|done].
      apply list_elem_of_In, list_elem_of_filter. done. }
  split; [by rewrite Hrun, Hfilter|]. split; [exact Hhit|].
  exists (filter (λ j, hit j = true) postings).
  split; [by rewrite Hrun, Hfilter|]. split; [apply sublist_filter|].
  intros j. rewrite list_elem_of_filter, Hhit. tauto.
Qed.

Lemma matches_any_keyword_ok j kw :
  (∀ b, matches_any_keyword str j kw = Ok b ↔
     ∃ d, py_or (description j) (PStr "") = PStr d
          ∧ b = existsb (λ k, contains k
                  (str_lower str (join " " [title j; location j; d]))) kw)
  ∧ (∀ e, matches_any_keyword str j kw = Raise e ↔
       e = TypeError ∧ ∀ d, py_or (description j) (PStr "") ≠ PStr d).
Proof.
  unfold matches_any_keyword.
  destruct (py_or (description j) (PStr "")) as [| | | |d| | |] eqn:Hd.
  5: { split.
       - intros keep. split; [intros [= <-]; by eauto|].
         by intros (d' & [= <-] & ->).
       - intros e. split; [done|]. intros [_ Hno]. by destruct (Hno d). }
  all: split;
    [intros keep; split; [done|by intros (d' & ? & _)]
    |intros e; split; [intros [= <-]; by split|by intros [-> _]]].
Qed.

Lemma filter_keywords_members kw postings :
  (∀ e, filter_keywords str kw postings = Raise e ↔
     e = TypeError
     ∧ ∃ j, j ∈ postings ∧ ∀ d, py_or (description j) (PStr "") ≠ PStr d)
  ∧ (∀ jobs, filter_keywords str kw postings = Ok jobs →
       sublist jobs postings
       ∧ ∀ j, j ∈ jobs ↔
           j ∈ postings
           ∧ ∃ k d, k ∈ kw ∧ py_or (description j) (PStr "") = PStr d
               ∧ contains k
                   (str_lower str (join " " [title j; location j; d]))
                 = true).
Proof.
  induction postings as [|j rest [IHraise IHok]]; simpl.
  { split.
    - intros e. split; [done|]. intros [_ (j & Hj & _)].
      by apply elem_of_nil in Hj.
    - intros jobs [= <-]. split; [constructor|]. intros j. split.
      + by intros ?%elem_of_nil.
      + by intros [?%elem_of_nil _]. }
  destruct (matches_any_keyword_ok j kw) as [Hmok Hmraise].
  destruct (matches_any_keyword str j kw) as [keep|e0] eqn:Hm; simpl.
  - destruct (proj1 (Hmok keep) eq_refl) as (d & Hd & Hkeep).
    destruct (filter_keywords str kw rest) as [kept|e1] eqn:Hrest; simpl.
    + split.
      * intros e. split; [done|]. intros [_ (j' & Hj' & Hbad)].
        apply elem_of_cons in Hj' as [->|Hj']; [by destruct (Hbad d)|].
        assert (Hr : Raise (A := list Job) TypeError = Ok kept); [|done].
        symmetry. apply IHraise. eauto.
      * intros jobs [= <-]. destruct (IHok kept eq_refl) as [Hsub Hmem].
        split; [destruct keep; by constructor|].
        intros j'. destruct keep.
        -- rewrite elem_of_cons, Hmem, elem_of_cons. split.
           ++ intros [->|[Hin Hex]]; [|by auto].
              split; [by left|]. symmetry in Hkeep.
              apply existsb_exists in Hkeep as (k & Hk & Hc).
              exists k, d. by rewrite list_elem_of_In.
           ++ intros [[->|Hin] Hex]; [by left|by right].
        -- rewrite Hmem, elem_of_cons. split; [by intros [? ?]; auto|].
           intros [[->|Hin] Hex]; [|done]. exfalso.
           destruct Hex as (k & d' & Hk & Hd' & Hc).
           rewrite Hd in Hd'. injection Hd' as <-.
           assert (Htrue : existsb (λ k, contains k
                     (str_lower str (join " " [title j; location j; d]))) kw
                   = true).
           { apply existsb_exists. exists k. by rewrite <- list_elem_of_In. }
           congruence.
    + split; [|done]. intros e. split.
      * intros [= <-]. destruct (proj1 (IHraise e1) eq_refl) as [-> (j' & ? & ?)].
        split; [done|]. exists j'. split; [by right|done].
      * intros [-> _]. by destruct (proj1 (IHraise e1) eq_refl) as [-> _].
  - destruct (proj1 (Hmraise e0) eq_refl) as [-> Hbad]. split; [|done].
    intros e. split.
    + intros [= <-]. split; [done|]. exists j. split; [by left|done].
    + by intros [-> _].
Qed.

(** The postings kept, with their descriptions: each posting that has a
    keyword, as often as it is there. *)
Lemma filter_keywords_rows kw postings jobs :
  filter_keywords str kw postings = Ok jobs →
  ∃ ds, Forall2 (λ j d, py_or (description j) (PStr "") = PStr d) postings ds
    ∧ jobs
      = (filter (λ jd : Job * string,
                   existsb (λ k, contains k
                      (str_lower str
                         (join " " [title jd.1; location jd.1; jd.2]))) kw
                   = true)
                (zip postings ds)).*1.
Proof.
  revert jobs. induction postings as [|j rest IH]; intros jobs; simpl.
  { intros [= <-]. by exists []. }
  destruct (matches_any_keyword_ok j kw) as [Hmok _].
  destruct (matches_any_keyword str j kw) as [keep|e0] eqn:Hm; [|done].
  destruct (proj1 (Hmok keep) eq_refl) as (d & Hd & Hkeep).
  destruct (filter_keywords str kw rest) as [kept|e1] eqn:Hrest; [|done].
  simpl. intros [= <-].
  destruct (IH kept eq_refl) as (ds & Hds & Hkept).
  exists (d :: ds). split; [by constructor|].
  cbn [zip zip_with]. rewrite filter_cons. destruct keep.
  - rewrite decide_True; [by rewrite fmap_cons, Hkept|].
    change (existsb (λ k, contains k
              (str_lower str (join " " [title j; location j; d]))) kw = true).
    by symmetry.
  - rewrite decide_False; [done|]. intros Hhit.
    change (existsb (λ k, contains k
              (str_lower str (join " " [title j; location j; d]))) kw = true)
      in Hhit.
    congruence.
Qed.

(** X14. The keyword filter looks for each keyword in the title, the
    location and the description of a posting, joined by single spaces and
    put in lower case by [str.lower]; it keeps, in their order and each as
    often as it is there, the postings in which one occurs. It raises
    [TypeError], and returns nothing, exactly when some posting has a
    description that is neither empty nor text. *)
Theorem keyword_filter_exact kw postings :
  (∀ e, filter_keywords str kw postings = Raise e ↔
     e = TypeError
     ∧ ∃ j, j ∈ postings ∧ ∀ d, py_or (description j) (PStr "") ≠ PStr d)
  ∧ (∀ jobs, filter_keywords str kw postings = Ok jobs →
       sublist jobs postings
       ∧ (∀ j, j ∈ jobs ↔
            j ∈ postings
            ∧ ∃ k d, k ∈ kw ∧ py_or (description j) (PStr "") = PStr d
                ∧ contains k
                    (str_lower str (join " " [title j; location j; d]))
                  = true)
       ∧ ∃ ds,
           Forall2 (λ j d, py_or (description j) (PStr "") = PStr d)
                   postings ds
           ∧ jobs
             = (filter (λ jd : Job * string,
                          existsb (λ k, contains k
                             (str_lower str
                                (join " " [title jd.1; location jd.1; jd.2])))
                            kw
                          = true)
                       (zip postings ds)).*1).
Proof.
  destruct (filter_keywords_members kw postings) as [Hraise Hok].
  split; [exact Hraise|]. intros jobs Hjobs.
  destruct (Hok jobs Hjobs) as [Hsub Hmem].
  split; [exact Hsub|]. split; [exact Hmem|].
  by apply filter_keywords_rows.
Qed.

End NetflixMore.

Section NetflixMoreExamples.
Import Py Netflix.

Lemma client_filters_blank_witness :
  (∀ ks, Some ["  "; ""] = Some ks → Forall (λ t, strip t = "") ks)
  ∧ (∀ ts, (None : option (list string)) = Some ts
           → Forall (λ t, strip t = "") ts)
  ∧ client_filters ascii_methods (Some ["  "; ""]) None
      [mkJob "Netflix" "Netflix:7" "Editor" "Unspecified" PNone PNone]
    = Ok [mkJob "Netflix" "Netflix:7" "Editor" "Unspecified" PNone PNone].
Proof.
  assert (Hkw : ∀ ks, Some ["  "; ""] = Some ks
                      → Forall (λ t, strip t = "") ks).
  { intros ks [= <-]. by repeat constructor. }
  assert (Hloc : ∀ ts, (None : option (list string)) = Some ts
                       → Forall (λ t, strip t = "") ts) by done.
  split; [exact Hkw|]. split; [exact Hloc|].
  exact (client_filters_blank ascii_methods _ _ _ Hkw Hloc).
Defined.

Lemma location_filter_exact_witness :
  ¬ Forall (λ t, strip t = "") [" Remote "]
  ∧ ∃ jobs,
      client_filters ascii_methods None (Some [" Remote "])
        [mkJob "Netflix" "Netflix:7" "Editor" "Remote, USA" PNone PNone;
         mkJob "Netflix" "Netflix:8" "Writer" "Los Gatos" PNone PNone]
      = Ok jobs
      ∧ sublist jobs
          [mkJob "Netflix" "Netflix:7" "Editor" "Remote, USA" PNone PNone;
           mkJob "Netflix" "Netflix:8" "Writer" "Los Gatos" PNone PNone].
Proof.
  assert (Hterms : ¬ Forall (λ t, strip t = "") [" Remote "]).
  { intros [Hblank _]%Forall_cons. discriminate. }
  split; [exact Hterms|].
  destruct (location_filter_exact ascii_methods [" Remote "]
              [mkJob "Netflix" "Netflix:7" "Editor" "Remote, USA" PNone PNone;
               mkJob "Netflix" "Netflix:8" "Writer" "Los Gatos" PNone PNone]
              Hterms) as (_ & _ & jobs & Hjobs & Hsub & _).
  by exists jobs.
Defined.

End NetflixMoreExamples.

(** * The Netflix transport: retries *)
Section Retries.
Import Py Transport.
Context {St : Type} (request : St → result Response * St).
Context (sleep : nat → result unit).
Hypothesis sleep_ok : ∀ attempt, sleep attempt = Ok tt.

Lemma checked_ok r resp :
  checked r = Ok resp → r = Ok resp ∧ (status_code resp < 400)%Z.
Proof.
  unfold checked. destruct r as [resp'|e]; [|done].
  destruct ((500 <=? _) || _)%Z eqn:H5; [done|].
  destruct ((400 <=? _) && _)%Z eqn:H4; [done|].
  intros [= <-]. split; [done|].
  apply orb_false_iff in H5 as [H5 _]. apply Z.leb_gt in H5.
  apply andb_false_iff in H4 as [H4|H4]; [by apply Z.leb_gt in H4|].
  apply Z.ltb_ge in H4. lia.
Qed.

Lemma retry_loop_outcome left : ∀ attempt st,
  0 < left →
  ∃ results,
    (retry_loop request sleep left attempt st).1.2
      = attempts_with_sleeps attempt results
    ∧ 1 ≤ length results ≤ left
    ∧ last results = Some (retry_loop request sleep left attempt st).1.1
    ∧ Forall (λ r, ∃ e, r = Raise e ∧ is_Exception e = true)
             (removelast results)
    ∧ (∀ e, (retry_loop request sleep left attempt st).1.1 = Raise e →
         is_Exception e = true → length results = left)
    ∧ (∀ resp, (retry_loop request sleep left attempt st).1.1 = Ok resp →
         (status_code resp < 400)%Z).
Proof.
  induction left as [|left IH]; intros attempt st Hleft; [lia|]. simpl.
  destruct (request st) as [r st'].
  destruct (checked r) as [resp|e] eqn:Hchecked.
  - exists [Ok resp]. simpl. repeat split; try done; try lia.
    intros resp' [= <-]. by apply checked_ok in Hchecked as [_ ?].
  - destruct (is_Exception e) eqn:Hcaught.
    2: { exists [Raise e]. simpl. repeat split; try done; try lia.
         intros e' [= <-]. congruence. }
    destruct left as [|left'].
    + exists [Raise e]. simpl. repeat split; try done; lia.
    + rewrite sleep_ok.
      destruct (IH (S attempt) st') as (results & Hev & Hlen & Hlast & Hall
                                        & Hraise & Hok); [lia|].
      destruct (retry_loop request sleep (S left') (S attempt) st')
        as [[out events] st'']. simpl in *.
      exists (Raise e :: results).
      destruct results as [|r0 results0]; [simpl in Hlen; lia|].
      repeat split.
      * simpl. by rewrite Hev.
      * simpl. lia.
      * simpl in *. lia.
      * done.
      * constructor; [by eauto|done].
      * intros e' He' Hc. pose proof (Hraise e' He' Hc) as Hl. simpl in *. lia.
      * done.
Qed.

(** X15. [_request_with_retries], when the sleeps between attempts do not
    fail, makes at most [max_retries] attempts, sleeping after each failed
    one but the last for [backoff_s] times the number of that attempt. An
    attempt fails by raising an [Exception], a response with status 400 or
    more being turned into one; the loop ends with the first attempt that
    does not, be it a response, which is returned and has a status below
    400, or something raised that is no [Exception] (an interrupt), which
    leaves at once. When the call raises an [Exception], [max_retries]
    attempts were made and it is what the last one raised; and with
    [max_retries] zero or negative no attempt is made and [RuntimeError] is
    raised. *)
Theorem request_with_retries_outcome (max_retries : Z) (st : St) :
  let run := request_with_retries request sleep max_retries st in
  ((max_retries ≤ 0)%Z → run = (Raise RuntimeError, [], st))
  ∧ ((0 < max_retries)%Z →
     ∃ results,
       run.1.2 = attempts_with_sleeps 1 results
       ∧ 1 ≤ length results ≤ Z.to_nat max_retries
       ∧ last results = Some run.1.1
       ∧ Forall (λ r, ∃ e, r = Raise e ∧ is_Exception e = true)
                (removelast results)
       ∧ (∀ e, run.1.1 = Raise e → is_Exception e = true →
            length results = Z.to_nat max_retries)
       ∧ (∀ resp, run.1.1 = Ok resp → (status_code resp < 400)%Z)).
Proof.
  intros run. subst run. unfold request_with_retries. split.
  - intros Hle. by replace (Z.to_nat max_retries) with 0 by lia.
  - intros Hpos. apply retry_loop_outcome. lia.
Qed.

End Retries.

Section RetriesExamples.
Import Py Transport.

Lemma request_with_retries_outcome_witness :
  (∀ attempt, sleeps attempt = Ok tt)
  ∧ (0 < 3)%Z
  ∧ request_with_retries (flaky 2) sleeps 3 0
    = (Ok (mkResponse 200 "{}"),
       [Attempt (Raise (OtherError "requests.Timeout")); Sleep 1;
        Attempt (Raise (OtherError "requests.Timeout")); Sleep 2;
        Attempt (Ok (mkResponse 200 "{}"))], 3)
  ∧ ∃ results,
      (request_with_retries (flaky 2) sleeps 3 0).1.2
        = attempts_with_sleeps 1 results
      ∧ 1 ≤ length results ≤ Z.to_nat 3.
Proof.
  assert (Hsleep : ∀ attempt, sleeps attempt = Ok tt) by done.
  assert (Hpos : (0 < 3)%Z) by lia.
  split; [exact Hsleep|]. split; [exact Hpos|]. split; [reflexivity|].
  destruct (proj2 (request_with_retries_outcome (flaky 2) sleeps Hsleep 3 0)
              Hpos)
    as (results & Hev & Hlen & _).
  by exists results.
Defined.

(** An interrupt is not retried, and a sleep that is refused ends the
    call. *)
Example retries_cut_short :
  request_with_retries interrupted sleeps 3 0
  = (Raise (Interrupt "KeyboardInterrupt"),
     [Attempt (Raise (Interrupt "KeyboardInterrupt"))], 1)
  ∧ request_with_retries (flaky 2) sleep_refused 3 0
    = (Raise ValueError,
       [Attempt (Raise (OtherError "requests.Timeout")); Sleep 1], 1).
Proof. by vm_compute. Qed.

End RetriesExamples.

(** * More on the COMSOL connector: country codes and heading parts *)
Section ComsolMore.
Import Py Comsol.

Local Abbreviation chars := String.list_ascii_of_string.
Local Abbreviation iso2 := (country_to_iso2 ascii_methods).

Lemma upper_char_idem a : upper_char (upper_char a) = upper_char a.
Proof. by destruct a as [[] [] [] [] [] [] [] []]. Qed.

Lemma upper_idem s : upper (upper s) = upper s.
Proof.
  unfold upper. induction s as [|a s IH]; simpl; [done|].
  by rewrite upper_char_idem, IH.
Qed.

Lemma upper_empty s : upper s = "" ↔ s = "".
Proof. by destruct s. Qed.

Lemma strip_upper s : strip (upper s) = upper (strip s).
Proof. apply strip_map, upper_char_letters. Qed.

Lemma ascii_text_upper s : ascii_text s → ascii_text (upper s).
Proof. apply ascii_text_map, upper_char_letters. Qed.

(** The codes of the table are not empty, are trimmed and in upper case,
    and stand for themselves. *)
Lemma mapping_codes key code :
  mapping_get mapping key = Some code →
  ascii_text code ∧ code ≠ "" ∧ strip code = code ∧ upper code = code
  ∧ iso2 code = code.
Proof.
  unfold mapping. simpl.
  repeat (case_decide;
          [intros [= <-];
           split; [apply (bool_decide_unpack _); by vm_compute|by vm_compute]
          |]).
  done.
Qed.

Lemma country_to_iso2_cases str c :
  (∃ code, mapping_get mapping (country_key str c) = Some code
           ∧ country_to_iso2 str c = code)
  ∨ (mapping_get mapping (country_key str c) = None
     ∧ country_to_iso2 str c = str_upper str (strip c)).
Proof.
  unfold country_to_iso2.
  destruct (mapping_get mapping (country_key str c)) as [code|] eqn:Hget.
  - left. exists code. split; [done|].
    destruct (mapping_codes _ _ Hget) as (_ & Hne & _).
    by rewrite bool_decide_eq_false_2.
  - right. by rewrite strip_idem.
Qed.

Lemma country_to_iso2_ext str c c' :
  country_key str c = country_key str c' → strip c = strip c' →
  country_to_iso2 str c = country_to_iso2 str c'.
Proof.
  intros Hkey Hstrip. unfold country_to_iso2. by rewrite Hkey, Hstrip.
Qed.

Lemma country_to_iso2_strip str c :
  country_to_iso2 str (strip c) = country_to_iso2 str c.
Proof.
  apply country_to_iso2_ext; [apply country_key_strip|apply strip_idem].
Qed.

Lemma iso2_upper c : ascii_text c → iso2 (upper c) = iso2 c.
Proof.
  intros Hc. unfold country_to_iso2.
  pose proof (country_key_upper ascii_methods c ascii_methods_case Hc) as Hk.
  cbn [str_upper ascii_methods] in Hk |- *.
  by rewrite Hk, !strip_upper, upper_idem.
Qed.

Lemma ascii_text_iso2 c : ascii_text c → ascii_text (iso2 c).
Proof.
  intros Hc.
  destruct (country_to_iso2_cases ascii_methods c)
    as [(code & Hget & ->)|(_ & ->)].
  - by destruct (mapping_codes _ _ Hget) as (? & _).
  - by apply ascii_text_upper, ascii_text_strip.
Qed.

(** X16. For a name of ASCII characters, what [_country_to_iso2] returns
    is trimmed and in upper case, and is a fixed point: the code of a code
    is that code. White space around the name and its letter case play no
    role, and the result is empty exactly for a blank name. *)
Theorem country_to_iso2_normal_form str c :
  ascii_case str → ascii_text c →
  strip (country_to_iso2 str c) = country_to_iso2 str c
  ∧ str_upper str (country_to_iso2 str c) = country_to_iso2 str c
  ∧ country_to_iso2 str (country_to_iso2 str c) = country_to_iso2 str c
  ∧ country_to_iso2 str (strip c) = country_to_iso2 str c
  ∧ country_to_iso2 str (str_upper str c) = country_to_iso2 str c
  ∧ (country_to_iso2 str c = "" ↔ strip c = "").
Proof.
  intros Hcase Hc.
  pose proof (ascii_text_iso2 c Hc) as Hiso.
  destruct (Hcase c Hc) as (Hupper & _ & _). rewrite Hupper.
  rewrite (country_to_iso2_ascii str (upper c) Hcase (ascii_text_upper c Hc)).
  rewrite (country_to_iso2_strip str c).
  rewrite !(country_to_iso2_ascii str c Hcase Hc).
  rewrite (country_to_iso2_ascii str (iso2 c) Hcase Hiso).
  destruct (Hcase (iso2 c) Hiso) as (-> & _ & _).
  split; [|split; [|split; [|split; [done|split; [by apply iso2_upper|]]]]];
    destruct (country_to_iso2_cases ascii_methods c)
      as [(code & Hget & ->)|(Hget & Hfall)];
    try (by destruct (mapping_codes _ _ Hget) as (_ & Hne & Hs & Hu & Hi)).
  - rewrite Hfall. cbn [str_upper ascii_methods].
    by rewrite strip_upper, strip_idem.
  - rewrite Hfall. cbn [str_upper ascii_methods]. by rewrite upper_idem.
  - rewrite Hfall. cbn [str_upper ascii_methods].
    rewrite iso2_upper by (by apply ascii_text_strip).
    by rewrite country_to_iso2_strip.
  - destruct (mapping_codes _ _ Hget) as (_ & Hne & _). split; [done|].
    intros Hblank. unfold country_key in Hget. rewrite Hblank in Hget.
    by vm_compute in Hget.
  - rewrite Hfall. cbn [str_upper ascii_methods]. apply upper_empty.
Qed.

(** ** Splitting at commas *)

Lemma split_no_sep sep s piece :
  piece ∈ split sep s → sep ∉ chars piece.
Proof.
  revert piece. induction s as [|a s IH]; simpl; intros piece Hin.
  - apply list_elem_of_singleton in Hin as ->. apply not_elem_of_nil.
  - case_decide as Ha.
    + apply elem_of_cons in Hin as [->|Hin]; [apply not_elem_of_nil|by apply IH].
    + destruct (split sep s) as [|h t] eqn:Hs.
      * apply list_elem_of_singleton in Hin as ->. simpl.
        by intros [?|[]%elem_of_nil]%elem_of_cons.
      * apply elem_of_cons in Hin as [->|Hin].
        -- simpl. intros [?|Hh]%elem_of_cons; [done|].
           revert Hh. apply IH. by left.
        -- apply IH. by right.
Qed.

Lemma after_space_chars s r a :
  after_space s = Some r → a ∈ chars r → a ∈ chars s.
Proof.
  destruct s as [|b [|c [|d s]]]; simpl; try done;
    repeat match goal with
    | |- context [if ?t then _ else _] => destruct t
    end; try done; intros [= <-] Hin; simpl; repeat first [exact Hin|right].
Qed.

Lemma lstrip_chars a s : a ∈ chars (lstrip s) → a ∈ chars s.
Proof.
  induction s as [|b s Hs _|s r Hs IH] using text_ind; [done| |].
  - by rewrite lstrip_fix.
  - rewrite lstrip_unfold, Hs. intros Hin.
    by apply (after_space_chars s r), IH.
Qed.

Lemma rstrip_chars a s : a ∈ chars (rstrip s) → a ∈ chars s.
Proof.
  induction s as [|b s IH]; [done|]. rewrite rstrip_cons.
  case_bool_decide; [by intros ?%elem_of_nil|].
  simpl. intros [->|Hin]%elem_of_cons; [by left|]. right. by apply IH.
Qed.

Lemma strip_chars a s : a ∈ chars (strip s) → a ∈ chars s.
Proof. intros ?. by apply lstrip_chars, rstrip_chars. Qed.

(** X17. Every part of a heading is a text that is not empty, has no
    whitespace at either end and holds no comma. *)
Theorem heading_parts_clean heading part :
  part ∈ heading_parts heading →
  part ≠ "" ∧ strip part = part ∧ ","%char ∉ chars part.
Proof.
  unfold heading_parts. intros (piece & -> & Hin)%list_elem_of_fmap.
  apply list_elem_of_filter in Hin as [Hne Hin].
  split; [done|]. split; [apply strip_idem|].
  intros Hc%strip_chars. by apply (split_no_sep _ _ _ Hin).
Qed.

Lemma split_none sep s : sep ∉ chars s → split sep s = [s].
Proof.
  induction s as [|a s IH]; simpl; [done|]. intros Hnot.
  rewrite decide_False by set_solver. rewrite IH by set_solver. done.
Qed.

Lemma split_app sep s rest :
  sep ∉ chars s → split sep (s +:+ String sep rest) = s :: split sep rest.
Proof.
  induction s as [|a s IH]; intros Hnot.
  - change ("" +:+ String sep rest) with (String sep rest). simpl.
    by rewrite decide_True.
  - change (String a s +:+ String sep rest)
      with (String a (s +:+ String sep rest)). simpl.
    rewrite decide_False by (simpl in Hnot; set_solver).
    rewrite IH by (simpl in Hnot; set_solver). done.
Qed.

(** Splitting what was joined gives the pieces back. *)
Lemma split_join sep pieces :
  pieces ≠ [] → Forall (λ p, sep ∉ chars p) pieces →
  split sep (join (String sep "") pieces) = pieces.
Proof.
  intros Hne Hall. unfold join.
  induction Hall as [|p pieces Hp Hall IH]; [done|].
  destruct pieces as [|q pieces].
  - simpl. by apply split_none.
  - change (String.concat (String sep "") (p :: q :: pieces))
      with (p +:+ String sep (String.concat (String sep "") (q :: pieces))).
    rewrite split_app by done. by rewrite IH.
Qed.

Lemma concat_cons_head sep a p l :
  String.concat sep (String a p :: l) = String a (String.concat sep (p :: l)).
Proof. by destruct l. Qed.

Lemma join_comma_space p ps :
  join ", " (p :: ps) = join "," (p :: (String " " <$> ps)).
Proof.
  unfold join. revert p. induction ps as [|q ps IH]; intros p; [done|].
  change (String.concat ", " (p :: q :: ps))
    with (p +:+ String "," (String " " (String.concat ", " (q :: ps)))).
  rewrite IH, <- concat_cons_head. done.
Qed.

Lemma heading_parts_pieces pieces :
  Forall (λ p, ","%char ∉ chars p) pieces →
  heading_parts (Some (join "," pieces))
  = strip <$> filter (λ p, strip p ≠ "") pieces.
Proof.
  intros Hall. unfold heading_parts. simpl.
  destruct pieces as [|p pieces]; [done|].
  by rewrite split_join.
Qed.

Lemma strip_filter_clean parts :
  Forall (λ p, p ≠ "" ∧ strip p = p) parts →
  strip <$> filter (λ p, strip p ≠ "") parts = parts.
Proof.
  induction 1 as [|p parts [Hne Hs] Hall IH]; [done|].
  rewrite filter_cons_True by (by rewrite Hs). by rewrite fmap_cons, Hs, IH.
Qed.

Lemma strip_filter_padded parts :
  Forall (λ p, p ≠ "" ∧ strip p = p) parts →
  strip <$> filter (λ p, strip p ≠ "") (String " " <$> parts) = parts.
Proof.
  induction 1 as [|p parts [Hne Hs] Hall IH]; [done|].
  assert (Hpad : strip (String " " p) = p) by (by rewrite <- Hs at 2).
  rewrite fmap_cons, filter_cons_True by (by rewrite Hpad).
  by rewrite fmap_cons, Hpad, IH.
Qed.

Section WithNormalizer.
Context (str : str_methods).
Context (normalize_location : string → string → string → option string).

(** X18. A heading written as pieces joined by commas has as parts the
    trimmed pieces that are not blank, in order; parts that are already
    clean, joined by [","] or by [", "], come back as they are. So the
    heading ["city, state, country"] of clean parts is read as that city,
    that state and the code of that country, and ["city, country"] as that
    city, no state and the code of that country. *)
Theorem heading_parts_join pieces :
  Forall (λ p, ","%char ∉ chars p) pieces →
  heading_parts (Some (join "," pieces))
  = strip <$> filter (λ p, strip p ≠ "") pieces
  ∧ (Forall (λ p, p ≠ "" ∧ strip p = p) pieces →
     heading_parts (Some (join "," pieces)) = pieces
     ∧ heading_parts (Some (join ", " pieces)) = pieces
     ∧ (∀ city state country, pieces = [city; state; country] →
          normalize_heading_location str normalize_location
            (Some (city +:+ ", " +:+ state +:+ ", " +:+ country))
          = normalize_location (country_to_iso2 str country) state city)
     ∧ (∀ city country, pieces = [city; country] →
          normalize_heading_location str normalize_location
            (Some (city +:+ ", " +:+ country))
          = normalize_location (country_to_iso2 str country) "" city)).
Proof.
  intros Hall. split; [by apply heading_parts_pieces|]. intros Hclean.
  assert (Hspace : heading_parts (Some (join ", " pieces)) = pieces).
  { destruct pieces as [|p pieces]; [done|].
    rewrite join_comma_space, heading_parts_pieces.
    - apply Forall_cons in Hclean as [[Hne Hs] Hclean].
      rewrite filter_cons_True by (by rewrite Hs).
      by rewrite fmap_cons, Hs, strip_filter_padded.
    - apply Forall_cons in Hall as [Hp Hall]. apply Forall_cons.
      split; [done|].
      apply Forall_fmap. eapply Forall_impl; [exact Hall|].
      intros q Hq. simpl. intros [?|?]%elem_of_cons; [done|]. by apply Hq. }
  split; [by rewrite heading_parts_pieces, strip_filter_clean|].
  split; [done|]. split.
  - intros city state country ->. unfold normalize_heading_location.
    change (city +:+ ", " +:+ state +:+ ", " +:+ country)
      with (join ", " [city; state; country]).
    by rewrite Hspace.
  - intros city country ->. unfold normalize_heading_location.
    change (city +:+ ", " +:+ country) with (join ", " [city; country]).
    by rewrite Hspace.
Qed.

End WithNormalizer.

End ComsolMore.

Section ComsolMoreExamples.
Import Py Comsol.

Lemma heading_parts_clean_witness :
  "AB" ∈ heading_parts (Some " Stockholm ,, AB , Sweden")
  ∧ "AB" ≠ "" ∧ strip "AB" = "AB"
  ∧ ","%char ∉ String.list_ascii_of_string "AB".
Proof.
  assert (Hin : "AB" ∈ heading_parts (Some " Stockholm ,, AB , Sweden")).
  { apply (bool_decide_unpack _). by vm_compute. }
  split; [exact Hin|].
  exact (heading_parts_clean (Some " Stockholm ,, AB , Sweden") "AB" Hin).
Defined.

Lemma heading_parts_join_witness :
  Forall (λ p, ","%char ∉ String.list_ascii_of_string p)
         ["Burlington"; "MA"; "USA"]
  ∧ heading_parts (Some "Burlington, MA, USA") = ["Burlington"; "MA"; "USA"]
  ∧ normalize_heading_location ascii_methods tagged_location
      (Some "Burlington, MA, USA")
    = tagged_location (country_to_iso2 ascii_methods "USA") "MA" "Burlington".
Proof.
  assert (Hall : Forall (λ p, ","%char ∉ String.list_ascii_of_string p)
                   ["Burlington"; "MA"; "USA"]).
  { apply (bool_decide_unpack _). by vm_compute. }
  assert (Hclean : Forall (λ p, p ≠ "" ∧ strip p = p)
                     ["Burlington"; "MA"; "USA"]).
  { repeat constructor; done. }
  split; [exact Hall|].
  destruct (heading_parts_join ascii_methods tagged_location _ Hall)
    as (_ & Hparts).
  destruct (Hparts Hclean) as (_ & Hspace & Hthree & _).
  split; [exact Hspace|]. exact (Hthree _ _ _ eq_refl).
Defined.

Lemma country_to_iso2_normal_form_witness :
  ascii_case ascii_methods
  ∧ ascii_text " u.s.a. "
  ∧ country_to_iso2 ascii_methods " u.s.a. " = "US"
  ∧ country_to_iso2 ascii_methods
      (country_to_iso2 ascii_methods " u.s.a. ")
    = country_to_iso2 ascii_methods " u.s.a. ".
Proof.
  assert (Hcase : ascii_case ascii_methods) by (by intros s _).
  assert (Hc : ascii_text " u.s.a. ").
  { apply (bool_decide_unpack _). by vm_compute. }
  split; [exact Hcase|]. split; [exact Hc|]. split; [reflexivity|].
  destruct (country_to_iso2_normal_form ascii_methods " u.s.a. " Hcase Hc)
    as (_ & _ & Hfix & _).
  exact Hfix.
Defined.

End ComsolMoreExamples.

(** * More on the dashboard: the pages together *)
Section DashboardPages.
Import Dashboard.

Lemma concat_pages {A} (k : nat) : ∀ (m : nat) (rows : list A),
  length rows ≤ m * k →
  mjoin ((λ i, take k (drop (i * k) rows)) <$> seq 0 m) = rows.
Proof.
  induction m as [|m IH]; intros rows Hlen.
  - destruct rows; [done|simpl in Hlen; lia].
  - change (seq 0 (S m)) with (0 :: seq 1 m).
    rewrite <- fmap_S_seq, fmap_cons, <- list_fmap_compose. simpl.
    rewrite drop_0.
    rewrite (list_fmap_ext _ (λ i, take k (drop (i * k) (drop k rows)))
               (seq 0 m)).
    + rewrite IH by (rewrite length_drop; lia). apply take_drop.
    + intros i x _. simpl. by rewrite drop_drop.
Qed.

(** The rows of page [p], for a page number in range. *)
Lemma browse_page_rows {A} (rows : list A) (page_size p : Z) :
  rows ≠ [] → (0 < page_size)%Z →
  (1 ≤ p ≤ max_page (Z.of_nat (length rows)) page_size)%Z →
  page_rows <$> browse rows page_size p
  = Some (take (Z.to_nat page_size)
               (drop (Z.to_nat (p - 1) * Z.to_nat page_size) rows)).
Proof.
  intros Hrows Hsize Hp.
  assert (Htotal : (1 ≤ Z.of_nat (length rows))%Z).
  { destruct rows; [done|]. simpl. lia. }
  destruct (max_page_ceil _ page_size Htotal Hsize) as (Hmax & Hlow & _).
  assert (Hpage : number_input 1 (max_page (Z.of_nat (length rows)) page_size)
                    p = p) by (unfold number_input; lia).
  assert (Hstart : (0 ≤ (p - 1) * page_size < Z.of_nat (length rows))%Z)
    by nia.
  unfold browse. destruct rows as [|r rows']; [done|].
  cbn [fmap option_fmap option_map page_rows]. f_equal.
  rewrite Hpage, py_slice_page by done. do 2 f_equal. nia.
Qed.

(** X19. The pages of the list, taken in order from page 1 to the last,
    put together give the rows back: no row is left out and none is shown
    twice. No page is empty, and every page but the last holds exactly
    [page_size] rows. *)
Theorem browse_pages_partition {A} (rows : list A) (page_size : Z) :
  rows ≠ [] → (0 < page_size)%Z →
  let shown (p : Z) := default [] (page_rows <$> browse rows page_size p) in
  let n := Z.to_nat (max_page (Z.of_nat (length rows)) page_size) in
  mjoin (shown <$> (Z.of_nat <$> seq 1 n)) = rows
  ∧ (∀ p, (1 ≤ p ≤ Z.of_nat n)%Z → shown p ≠ [])
  ∧ (∀ p, (1 ≤ p < Z.of_nat n)%Z →
       Z.of_nat (length (shown p)) = page_size).
Proof.
  intros Hrows Hsize shown n.
  assert (Htotal : (1 ≤ Z.of_nat (length rows))%Z).
  { destruct rows; [done|]. simpl. lia. }
  destruct (max_page_ceil _ page_size Htotal Hsize)
    as (Hmax & Hlow & Hhigh & _).
  assert (Hn : Z.of_nat n = max_page (Z.of_nat (length rows)) page_size).
  { subst n. unfold max_page. lia. }
  assert (Hshown : ∀ p, (1 ≤ p ≤ Z.of_nat n)%Z →
            shown p = take (Z.to_nat page_size)
                        (drop (Z.to_nat (p - 1) * Z.to_nat page_size) rows)).
  { intros p Hp. subst shown. simpl.
    rewrite browse_page_rows by (done || lia). done. }
  split; [|split].
  - rewrite <- fmap_S_seq, <- !list_fmap_compose.
    rewrite (list_fmap_ext _
               (λ i, take (Z.to_nat page_size)
                       (drop (i * Z.to_nat page_size) rows)) (seq 0 n)).
    + apply concat_pages. nia.
    + intros i x Hix. apply lookup_seq in Hix as [-> Hi]. simpl.
      rewrite Hshown by lia. do 3 f_equal. lia.
  - intros p Hp. rewrite Hshown by done. intros Hnil.
    apply (f_equal length) in Hnil. rewrite length_take, length_drop in Hnil.
    simpl in Hnil. nia.
  - intros p Hp. rewrite Hshown by lia. rewrite length_take, length_drop. nia.
Qed.

End DashboardPages.

Section DashboardPagesExamples.
Import Dashboard.

Lemma browse_pages_partition_witness :
  seq 1 120 ≠ [] ∧ (0 < 50)%Z
  ∧ mjoin ((λ p, default [] (page_rows <$> browse (seq 1 120) 50 p))
             <$> (Z.of_nat <$> seq 1 3))
    = seq 1 120.
Proof.
  assert (Hrows : seq 1 120 ≠ []) by discriminate.
  assert (Hsize : (0 < 50)%Z) by lia.
  split; [exact Hrows|]. split; [exact Hsize|].
  exact (proj1 (browse_pages_partition (seq 1 120) 50 Hrows Hsize)).
Defined.

End DashboardPagesExamples.

(** * The panels of the dashboard *)
Section PanelFacts.
Import Storage Queries Panels.

Lemma db_companies_elem (c : conn) co :
  co ∈ db_companies c ↔ ∃ k r, jobs c !! k = Some r ∧ row_company r = co.
Proof.
  unfold db_companies.
  rewrite (merge_sort_Permutation String.le), elem_of_remove_dups,
    list_elem_of_fmap.
  split.
  - intros (r & -> & Hin). apply list_elem_of_fmap in Hin as ([k r'] & -> & Hin).
    apply elem_of_map_to_list in Hin. by exists k, r'.
  - intros (k & r & Hr & <-). exists r. split; [done|].
    apply list_elem_of_fmap. exists (k, r). split; [done|].
    by apply elem_of_map_to_list.
Qed.

Lemma db_companies_NoDup (c : conn) : NoDup (db_companies c).
Proof.
  unfold db_companies. rewrite (merge_sort_Permutation String.le).
  apply NoDup_remove_dups.
Qed.

Lemma companies_enabled db en :
  en ≠ [] →
  companies db en
  = filter (λ c, c ∈ en) db
    ++ filter (λ c, c ∉ filter (λ c, c ∈ en) db) en.
Proof. by destruct en. Qed.

Lemma StronglySorted_sublist {A} (R : relation A) (l k : list A) :
  l `sublist_of` k → StronglySorted R k → StronglySorted R l.
Proof.
  induction 1 as [|x l k Hsub IH|x l k Hsub IH]; intros Hk; [done|..];
    apply StronglySorted_inv in Hk as [Hk Hx].
  - constructor; [by apply IH|]. apply Forall_forall. intros y Hy.
    rewrite Forall_forall in Hx. apply Hx. by eapply elem_of_sublist.
  - by apply IH.
Qed.

Lemma db_companies_sorted (c : conn) : StronglySorted String.le (db_companies c).
Proof. apply (StronglySorted_merge_sort String.le). Qed.

Lemma db_companies_empty (c : conn) : db_companies c = [] ↔ jobs c = ∅.
Proof.
  split.
  - intros Hnil. apply map_empty. intros k.
    destruct (jobs c !! k) as [r|] eqn:Hr; [|done].
    assert (Hin : row_company r ∈ db_companies c)
      by (apply db_companies_elem; by exists k, r).
    rewrite Hnil in Hin. by apply elem_of_nil in Hin.
  - intros Hempty. unfold db_companies. by rewrite Hempty, map_to_list_empty.
Qed.

(** X20. With a profile that names companies, the dropdown offers exactly
    the companies of the profile, whatever the database holds: first those
    that have rows, in ascending order, then the others in the order of the
    profile; a profile without repeats gives a list without repeats. With
    a profile that names none, it offers the companies of the database, in
    ascending order and each once, or the three built-in names when the
    jobs table is empty. *)
Theorem company_choices (c : conn) (enabled_companies : list string) :
  let cs := companies (db_companies c) enabled_companies in
  (enabled_companies ≠ [] →
     (∀ co, co ∈ cs ↔ co ∈ enabled_companies)
     ∧ (NoDup enabled_companies → NoDup cs ∧ cs ≡ₚ enabled_companies)
     ∧ ∃ known new,
         cs = known ++ new
         ∧ Sorted String.le known
         ∧ (∀ co, co ∈ known ↔
              co ∈ enabled_companies
              ∧ ∃ k r, jobs c !! k = Some r ∧ row_company r = co)
         ∧ new `sublist_of` enabled_companies
         ∧ (∀ co, co ∈ new ↔
              co ∈ enabled_companies
              ∧ ¬ ∃ k r, jobs c !! k = Some r ∧ row_company r = co))
  ∧ (enabled_companies = [] →
     (jobs c = ∅ → cs = ["MathWorks"; "Amazon"; "Dassault Systemes"])
     ∧ (jobs c ≠ ∅ →
        Sorted String.le cs ∧ NoDup cs
        ∧ ∀ co, co ∈ cs ↔ ∃ k r, jobs c !! k = Some r ∧ row_company r = co)).
Proof.
  intros cs. subst cs. split.
  - intros Hen. rewrite companies_enabled by done.
    set (known := filter (λ co, co ∈ enabled_companies) (db_companies c)).
    set (new := filter (λ co, co ∉ known) enabled_companies).
    assert (Hknown : ∀ co, co ∈ known ↔
              co ∈ enabled_companies
              ∧ ∃ k r, jobs c !! k = Some r ∧ row_company r = co).
    { intros co. subst known.
      by rewrite list_elem_of_filter, db_companies_elem. }
    assert (Hnew : ∀ co, co ∈ new ↔ co ∈ enabled_companies ∧ co ∉ known).
    { intros co. subst new. rewrite list_elem_of_filter. tauto. }
    assert (Hall : ∀ co, co ∈ known ++ new ↔ co ∈ enabled_companies).
    { intros co. rewrite elem_of_app, Hnew. split.
      - intros [Hk|[? _]]; [by apply Hknown in Hk as [? _]|done].
      - intros Hin. destruct (decide (co ∈ known)); [by left|by right]. }
    split; [exact Hall|]. split.
    + intros Hnd.
      assert (Hnd' : NoDup (known ++ new)).
      { apply NoDup_app. split; [|split].
        - apply NoDup_filter, db_companies_NoDup.
        - intros co Hk Hn. apply Hnew in Hn. tauto.
        - by apply NoDup_filter. }
      split; [done|]. by apply NoDup_Permutation.
    + exists known, new. split; [done|]. split.
      { apply StronglySorted_Sorted.
        apply (StronglySorted_sublist _ _ (db_companies c));
          [apply sublist_filter|apply db_companies_sorted]. }
      split; [exact Hknown|]. split; [apply sublist_filter|].
      intros co. rewrite Hnew.
      split; intros [Hin Hno]; (split; [done|]).
      * intros Hex. apply Hno. by apply Hknown.
      * intros Hk. apply Hno. by apply Hknown in Hk as [_ ?].
  - intros ->. unfold companies. split.
    + intros Hempty. by rewrite (proj2 (db_companies_empty c) Hempty).
    + intros Hne.
      destruct (db_companies c) as [|co cos] eqn:Hdb.
      { by apply db_companies_empty in Hdb. }
      rewrite <- Hdb. split; [|split].
      * apply StronglySorted_Sorted, db_companies_sorted.
      * apply db_companies_NoDup.
      * apply db_companies_elem.
Qed.

(** ** The panel of new postings *)

Lemma insert_desc_const {A} (key : A → string) (k : string) x l :
  key x = k → Forall (λ y, key y = k) l → insert_desc key x l = x :: l.
Proof.
  intros Hx Hl. destruct l as [|y l]; [done|]. simpl.
  apply Forall_cons in Hl as [Hy _]. by rewrite Hx, Hy, decide_True.
Qed.

(** Sorting by a key that is the same for all entries changes nothing. *)
Lemma sort_desc_const {A} (key : A → string) (k : string) l :
  Forall (λ y, key y = k) l → sort_desc key l = l.
Proof.
  induction 1 as [|x l Hx Hl IH]; [done|].
  unfold sort_desc in *. simpl. rewrite IH. by apply (insert_desc_const _ k).
Qed.

Lemma get_new_today_first_seen today (c : conn) co :
  Forall (λ r : string * string * string * string, r.1.2 = today)
         (get_new_today today c co).
Proof.
  apply Forall_forall. intros t Hin. unfold get_new_today in Hin.
  rewrite (merge_sort_Permutation title_asc) in Hin.
  apply new_today_tuples_elem in Hin as (k & r & _ & _ & Hd & ->). done.
Qed.

(** X21. The panel of new postings shows the first [show_limit] rows of
    [get_new_today] for the selected company, in the order of that query:
    the re-sort by [first_seen] changes nothing, all these rows being first
    seen today. The count beside them is that of all such rows. With
    ["(All)"] selected the panel is empty. *)
Theorem new_postings_panel today (c : conn) selected_company show_limit :
  (0 ≤ show_limit)%Z →
  let panel := new_postings today c selected_company show_limit in
  (selected_company = "(All)" → panel = ([], 0))
  ∧ (selected_company ≠ "(All)" →
     panel.1 = take (Z.to_nat show_limit)
                 (get_new_today today c selected_company)
     ∧ panel.2 = length (get_new_today today c selected_company)
     ∧ length panel.1 = Z.to_nat show_limit `min` panel.2
     ∧ ∀ t, t ∈ panel.1 →
         ∃ k r, jobs c !! k = Some r ∧ row_company r = selected_company
                ∧ first_seen r = today
                ∧ t = (row_title r, row_url r, first_seen r, last_seen r)).
Proof.
  intros Hlimit panel. subst panel. unfold new_postings. split.
  - intros ->. by destruct show_limit.
  - intros Hsel. rewrite bool_decide_eq_true_2 by done.
    rewrite (sort_desc_const _ today) by apply get_new_today_first_seen.
    set (rows := get_new_today today c selected_company).
    assert (Hslice : Dashboard.py_slice rows 0 show_limit
                     = take (Z.to_nat show_limit) rows).
    { unfold Dashboard.py_slice. cbv zeta.
      rewrite Z.ltb_irrefl, (proj2 (Z.ltb_ge show_limit 0)) by lia.
      rewrite (Z.min_l 0) by lia. change (Z.to_nat 0) with 0.
      rewrite drop_0, Z.sub_0_r.
      destruct (Z.le_gt_cases show_limit (Z.of_nat (length rows))).
      - by rewrite Z.min_l by lia.
      - rewrite Z.min_r by lia. rewrite !take_ge; [done|lia..]. }
    simpl. rewrite Hslice. split; [done|]. split; [done|].
    split; [apply length_take|].
    intros t Hin. apply (elem_of_sublist _ rows) in Hin; [|apply sublist_take].
    subst rows. unfold get_new_today in Hin.
    rewrite (merge_sort_Permutation title_asc) in Hin.
    by apply new_today_tuples_elem in Hin.
Qed.


(** ** The rows of the paginated list *)

#[local] Existing Instance recent_first_total.
#[local] Existing Instance recent_first_trans.




End PanelFacts.

Section PanelExamples.
Import Storage Queries Panels.

Lemma new_postings_panel_witness :
  (0 ≤ 10)%Z
  ∧ (new_postings day1 sample_db "COMSOL" 10).1
    = take (Z.to_nat 10) (get_new_today day1 sample_db "COMSOL")
  ∧ (new_postings day1 sample_db "COMSOL" 10).2
    = length (get_new_today day1 sample_db "COMSOL").
Proof.
  assert (Hlimit : (0 ≤ 10)%Z) by lia.
  assert (Hsel : "COMSOL" ≠ "(All)") by discriminate.
  split; [exact Hlimit|].
  destruct (proj2 (new_postings_panel day1 sample_db "COMSOL" 10 Hlimit) Hsel)
    as (Hshown & Htotal & _).
  split; [exact Hshown|exact Htotal].
Defined.

End PanelExamples.

(** * More on the profile loader: keys that are present *)
Section ConfigMore.
Import Py Config.

Lemma as_dict_or_empty d : as_dict (py_or (PDict d) (PDict [])) = Ok d.
Proof. by destruct d. Qed.

(** [load_profile] on a document that loads as the mapping [d]. *)
Lemma load_profile_dict read_text safe_load repr_other profile_name text d :
  read_text (profile_path profile_name) = Some text →
  safe_load text = Ok (PDict d) →
  load_profile read_text safe_load repr_other profile_name
  = bind (py_list (dict_get_or d "enabled_companies" (PList [])))
      (λ companies,
         Ok (mkProfileConfig profile_name
               (py_str repr_other
                  (dict_get_or d "db_path"
                     (PStr (default_db_path profile_name))))
               companies)).
Proof.
  intros Hfile Hload. unfold load_profile. rewrite Hfile, Hload.
  unfold mbind, result_bind. cbn [bind].
  by rewrite as_dict_or_empty.
Qed.

(** X23. On a profile that loads as a mapping, [load_profile] fails exactly
    when [enabled_companies] is present and cannot be listed: it is [None],
    a boolean, a number, or another object that is not iterable (a date, a
    timestamp); and then with [TypeError]. When it succeeds, [db_path] is
    the text of the value given, so that a [db_path] key left without a
    value gives the path ["None"], not the default; a list of companies is
    taken as it is, a string is split into its characters, a mapping gives
    its keys, and any other iterable object what [list] makes of it. *)
Theorem load_profile_mapping read_text safe_load repr_other profile_name
    text d :
  read_text (profile_path profile_name) = Some text →
  safe_load text = Ok (PDict d) →
  let load := load_profile read_text safe_load repr_other profile_name in
  let listed := dict_lookup d "enabled_companies" in
  (∀ e, load = Raise e ↔
        e = TypeError
        ∧ ∃ v, listed = Some v
               ∧ (v = PNone ∨ (∃ b, v = PBool b) ∨ (∃ z, v = PInt z)
                  ∨ (∃ q, v = PFloat q)
                  ∨ ∃ truth text, v = POther truth None text))
  ∧ (∀ cfg, load = Ok cfg →
       name cfg = profile_name
       ∧ (∀ v, dict_lookup d "db_path" = Some v →
            db_path cfg = py_str repr_other v)
       ∧ (dict_lookup d "db_path" = Some PNone → db_path cfg = "None")
       ∧ (∀ l, listed = Some (PList l) → enabled_companies cfg = l)
       ∧ (∀ s, listed = Some (PStr s) →
            enabled_companies cfg = PStr <$> utf8_chars s)
       ∧ (∀ kv, listed = Some (PDict kv) →
            enabled_companies cfg = PStr <$> kv.*1)
       ∧ (∀ truth items text,
            listed = Some (POther truth (Some items) text) →
            enabled_companies cfg = items)).
Proof.
  intros Hfile Hload load listed. subst load listed.
  rewrite (load_profile_dict _ _ _ _ text d) by done.
  unfold dict_get_or.
  destruct (dict_lookup d "enabled_companies") as [v|] eqn:Hlisted; simpl.
  - split.
    + intros e. split.
      * intros Hraise.
        destruct v as [|b|z|q|s|l|kv|truth [items|] txt]; try done;
          injection Hraise as <-;
          (split; [done|]); eexists; (split; [done|]); eauto 10.
      * intros (-> & v' & [= <-]
                & [->|[[b ->]|[[z ->]|[[q ->]|(truth & txt & ->)]]]]); done.
    + intros cfg Hok.
      destruct v as [|b|z|q|s|l|kv|truth [items|] txt]; try done;
        injection Hok as <-; simpl;
        (split; [done|]); (split; [by intros v' ->|]);
        (split; [by intros ->|]);
        (split; [by intros l' [= <-]|]);
        (split; [by intros s' [= <-]|]);
        (split; [|by intros ??? [= <- <- <-]]).
      * done.
      * done.
      * intros kv' [= <-]. by rewrite <- list_fmap_compose.
      * done.
  - split.
    + intros e. split; [done|]. by intros (_ & v & ? & _).
    + intros cfg [= <-]. simpl. split; [done|]. split; [by intros v ->|].
      split; [by intros ->|]. done.
Qed.

End ConfigMore.

Section ConfigMoreExamples.
Import Py Config ConfigSamples.

Lemma load_profile_mapping_witness :
  disk_with "profiles/yt.yaml" bare_text (profile_path "yt") = Some bare_text
  ∧ safe_load_bare bare_text = Ok bare_profile
  ∧ load_profile (disk_with "profiles/yt.yaml" bare_text) safe_load_bare
      no_repr "yt"
    = Ok (mkProfileConfig "yt" "None"
            [PStr "N"; PStr "e"; PStr "t"; PStr "f"; PStr "l"; PStr "i";
             PStr "x"])
  ∧ ∀ cfg,
      load_profile (disk_with "profiles/yt.yaml" bare_text) safe_load_bare
        no_repr "yt" = Ok cfg →
      db_path cfg = "None".
Proof.
  assert (Hfile : disk_with "profiles/yt.yaml" bare_text (profile_path "yt")
                  = Some bare_text) by reflexivity.
  assert (Hload : safe_load_bare bare_text = Ok bare_profile) by reflexivity.
  split; [exact Hfile|]. split; [exact Hload|]. split; [reflexivity|].
  intros cfg Hcfg.
  destruct (load_profile_mapping _ safe_load_bare no_repr "yt" bare_text _
              Hfile Hload) as (_ & Hok).
  destruct (Hok cfg Hcfg) as (_ & _ & Hnone & _).
  by apply Hnone.
Defined.

End ConfigMoreExamples.
